(** * py_terminal: a shallow embedding of [main.py]

    The interactive shell of [main.py] is embedded as state-passing
    functions over an explicit [world] (file tree, working directory,
    environment).  Python exceptions are values of type [exn]; a
    computation that may raise returns [exn + A]. *)

From Stdlib Require Import Ascii String List Bool Arith Lia.
From Stdlib Require Import DecimalString.
From stdpp Require Import gmap strings list fin_maps sorting.

Local Open Scope list_scope.

(** ** Python exceptions *)

(** The [OSError] family is told apart by its errno, as Python does when it
    picks the subclass ([ENOENT] is [FileNotFoundError], [EEXIST] is
    [FileExistsError], ...).  [ShutilError] is [shutil.Error], itself a
    subclass of [OSError]. *)
Inductive errno :=
  ENOENT | EEXIST | ENOTDIR | EISDIR | ENOTEMPTY | ELOOP | EINVAL | EBUSY.

Inductive exn :=
| OSError (e : errno) (filename : option string)
| ShutilError (msg : string)
| CalledProcessError (returncode : Z) (output : string)
| ValueError (msg : string)
| RuntimeError (msg : string).

Definition errno_num (e : errno) : string :=
  match e with
  | ENOENT => "2" | EEXIST => "17" | ENOTDIR => "20" | EISDIR => "21"
  | ENOTEMPTY => "39" | ELOOP => "40" | EINVAL => "22" | EBUSY => "16"
  end.

Definition strerror (e : errno) : string :=
  match e with
  | ENOENT => "No such file or directory"
  | EEXIST => "File exists"
  | ENOTDIR => "Not a directory"
  | EISDIR => "Is a directory"
  | ENOTEMPTY => "Directory not empty"
  | ELOOP => "Too many levels of symbolic links"
  | EINVAL => "Invalid argument"
  | EBUSY => "Device or resource busy"
  end.

(** [repr(s)] of a file name, for names that need no escaping. *)
Definition repr (s : string) : string := "'" +:+ s +:+ "'".

(** [str(n)] of a natural number. *)
Definition str_nat (n : nat) : string := NilEmpty.string_of_uint (Nat.to_uint n).

(** [str(z)] of an integer. *)
Definition str_int (z : Z) : string := NilEmpty.string_of_int (Z.to_int z).

(** [str(e)], the text an f-string [{e}] renders. *)
Definition str_exn (e : exn) : string :=
  match e with
  | OSError n None => "[Errno " +:+ errno_num n +:+ "] " +:+ strerror n
  | OSError n (Some f) =>
      "[Errno " +:+ errno_num n +:+ "] " +:+ strerror n +:+ ": " +:+ repr f
  | CalledProcessError n _ =>
      "Command returned non-zero exit status " +:+ str_int n +:+ "."
  | ShutilError m | ValueError m | RuntimeError m => m
  end.

Definition is_FileNotFoundError (e : exn) : bool :=
  match e with OSError ENOENT _ => true | _ => false end.
Definition is_FileExistsError (e : exn) : bool :=
  match e with OSError EEXIST _ => true | _ => false end.
Definition is_OSError (e : exn) : bool :=
  match e with OSError _ _ | ShutilError _ => true | _ => false end.

(** ** Python string helpers *)

(** The newline character, as a string. *)
Definition NL : string := String "010" "".

(** [sep.join(items)] *)
Definition join (sep : string) (items : list string) : string :=
  String.concat sep items.

(** [s.startswith(prefix)] *)
Definition startswith (s prefix : string) : bool := String.prefix prefix s.

Definition nonempty (s : string) : bool :=
  match s with EmptyString => false | _ => true end.

Fixpoint string_forallb (p : ascii -> bool) (s : string) : bool :=
  match s with
  | EmptyString => true
  | String c r => p c && string_forallb p r
  end.

(** [str.isspace] on one character (code points below 256). *)
Definition py_isspace (c : ascii) : bool :=
  let n := nat_of_ascii c in
  ((9 <=? n) && (n <=? 13)) || ((28 <=? n) && (n <=? 32))
  || (n =? 133) || (n =? 160).

(** [not line.strip()]: the line is empty or made of whitespace only. *)
Definition is_blank (line : string) : bool := string_forallb py_isspace line.

(** ** The tokenizer: [shlex.split(line)]

    [shlex.split] builds a POSIX-mode lexer with [whitespace_split = True]
    and no comment characters, then collects its tokens.  [read_loop] is
    the [while True] loop of [shlex.read_token]: [state] is the lexer's
    [self.state], [escapedstate] and [quoted] its two locals, [token] its
    [self.token]; the input string is what is left of the stream. *)
Module shlex.

Inductive lex_state :=
| st_none                (* [None]: past the end of the input *)
| st_space               (* [' ']: between tokens *)
| st_word                (* ['a']: inside a word *)
| st_quote (q : ascii)   (* inside a quotation opened by [q] *)
| st_escape.             (* just after a backslash *)

Definition is_whitespace (c : ascii) : bool :=
  match c with
  | " " | "009" | "013" | "010" => true
  | _ => false
  end%char.

Definition is_quote (c : ascii) : bool :=
  match c with "'" | "034" => true | _ => false end%char.

Definition is_escape (c : ascii) : bool :=
  match c with "\" => true | _ => false end%char.

(** [self.escapedquotes]: only the double quote. *)
Definition is_escapedquote (c : ascii) : bool :=
  match c with "034" => true | _ => false end%char.

Definition push (token : string) (c : ascii) : string :=
  token +:+ String c "".

Definition outcome : Type := string * lex_state * bool * string.

Fixpoint read_loop (input : string) (state escapedstate : lex_state)
    (quoted : bool) (token : string) : exn + outcome :=
  match input with
  | EmptyString =>
      match state with
      | st_none => inr (input, st_none, quoted, "")
      | st_space | st_word => inr (input, st_none, quoted, token)
      | st_quote _ => inl (ValueError "No closing quotation")
      | st_escape => inl (ValueError "No escaped character")
      end
  | String nextchar rest =>
      match state with
      | st_none => inr (rest, st_none, quoted, "")
      | st_space =>
          if is_whitespace nextchar then
            if nonempty token || quoted
            then inr (rest, st_space, quoted, token)
            else read_loop rest st_space escapedstate quoted token
          else if is_escape nextchar then
            read_loop rest st_escape st_word quoted token
          else if is_quote nextchar then
            read_loop rest (st_quote nextchar) escapedstate quoted token
          else
            read_loop rest st_word escapedstate quoted (String nextchar "")
      | st_quote q =>
          if Ascii.eqb nextchar q then
            read_loop rest st_word escapedstate true token
          else if is_escape nextchar && is_escapedquote q then
            read_loop rest st_escape (st_quote q) true token
          else
            read_loop rest (st_quote q) escapedstate true (push token nextchar)
      | st_escape =>
          let token :=
            match escapedstate with
            | st_quote q =>
                if negb (is_escape nextchar) && negb (Ascii.eqb nextchar q)
                then push token "\"%char else token
            | _ => token
            end in
          read_loop rest escapedstate escapedstate quoted (push token nextchar)
      | st_word =>
          if is_whitespace nextchar then
            if nonempty token || quoted
            then inr (rest, st_space, quoted, token)
            else read_loop rest st_space escapedstate quoted token
          else if is_quote nextchar then
            read_loop rest (st_quote nextchar) escapedstate quoted token
          else if is_escape nextchar then
            read_loop rest st_escape st_word quoted token
          else
            read_loop rest st_word escapedstate quoted (push token nextchar)
      end
  end.

(** The lexer object between two calls of [read_token]: its state and
    the unread input ([self.token] is empty there). *)
Record lexer := Lexer { state : lex_state; instream : string }.

(** [read_token]: an unquoted empty result is [None], the end marker. *)
Definition read_token (lx : lexer) : exn + (option string * lexer) :=
  match read_loop (instream lx) (state lx) st_space false "" with
  | inl e => inl e
  | inr (rest, st, quoted, result) =>
      inr (if negb quoted && negb (nonempty result) then None else Some result,
           Lexer st rest)
  end.

(** [list(lex)]: read tokens until the end marker.  [None] is the model
    running out of [fuel]; [split_total] shows it never happens. *)
Fixpoint tokens (fuel : nat) (lx : lexer) : option (exn + list string) :=
  match fuel with
  | O => None
  | S fuel' =>
      match read_token lx with
      | inl e => Some (inl e)
      | inr (None, _) => Some (inr [])
      | inr (Some t, lx') =>
          match tokens fuel' lx' with
          | Some (inr ts) => Some (inr (t :: ts))
          | r => r
          end
      end
  end.

(** Every token but the last takes at least one character. *)
Definition split_fuel (line : string) : nat := S (S (String.length line)).

Definition split (line : string) : exn + list string :=
  match tokens (split_fuel line) (Lexer st_space line) with
  | Some r => r
  | None => inl (RuntimeError "tokens: out of fuel")
  end.

End shlex.

(** ** Paths

    [Path] is [pathlib.PurePosixPath]: whether the path is anchored at the
    root, and its components.  Parsing drops empty and [.] components (and
    with them repeated and trailing slashes); [..] is kept. *)
Record Path := MkPath { is_abs : bool; parts : list string }.

(** [s.split('/')] *)
Fixpoint split_slash (s : string) : list string :=
  match s with
  | EmptyString => [""]
  | String c r =>
      if Ascii.eqb c "/" then "" :: split_slash r
      else match split_slash r with
           | h :: t => String c h :: t
           | [] => [String c ""]
           end
  end.

Definition is_part (c : string) : bool :=
  negb (String.eqb c "") && negb (String.eqb c ".").

(** [Path(s)] *)
Definition PurePath (s : string) : Path :=
  MkPath (startswith s "/") (List.filter is_part (split_slash s)).

(** [str(p)] *)
Definition Path_str (p : Path) : string :=
  match is_abs p, parts p with
  | false, [] => "."
  | false, ps => join "/" ps
  | true, ps => "/" +:+ join "/" ps
  end.

(** [p.name] *)
Definition Path_name (p : Path) : string := List.last (parts p) "".

(** [p.parent] *)
Definition Path_parent (p : Path) : Path :=
  MkPath (is_abs p) (removelast (parts p)).

(** [p.parent == p]: nothing left to strip. *)
Definition is_top (p : Path) : bool :=
  match parts p with [] => true | _ => false end.

(** [p / s] *)
Definition Path_div (p : Path) (s : string) : Path :=
  let q := PurePath s in
  if is_abs q then q else MkPath (is_abs p) (parts p ++ parts q).

(** ** The world: file tree, working directory, environment

    The file tree maps the canonical absolute path of every object (its
    components from the root, no symbolic link among them) to its node.
    The root is the empty path and is always a directory. *)
Inductive node :=
| File (data : string)
| Dir
| Symlink (target : string).

Record world := World {
  fs : gmap (list string) node;
  cwd : list string;               (* the working directory *)
  home : string;                   (* home directory of the user, as [~] expands *)
  passwd : gmap string string;     (* home directories of named users *)
  env_PATH : string                (* [os.getenv('PATH', '')] *)
}.

Definition set_fs (w : world) (f : gmap (list string) node) : world :=
  World f (cwd w) (home w) (passwd w) (env_PATH w).
Definition set_cwd (w : world) (d : list string) : world :=
  World (fs w) d (home w) (passwd w) (env_PATH w).

Definition lookup_node (f : gmap (list string) node) (p : list string) : option node :=
  match p with [] => Some Dir | _ => f !! p end.

(** Path resolution as the kernel does it: walk the components from [cur],
    following symbolic links met on the way, and the last one too when
    [follow] is set.  The result is the canonical path of the object named,
    which need not exist when only its last component is missing.  Each
    link followed costs one unit of [fuel]; [ELOOP] when it runs out. *)
Fixpoint walk (fuel : nat) (f : gmap (list string) node) (follow : bool)
    : list string -> list string -> errno + list string :=
  fix go (cur comps : list string) {struct comps} : errno + list string :=
    match comps with
    | [] => inr cur
    | c :: rest =>
        if String.eqb c ".." then go (removelast cur) rest
        else
          match f !! (cur ++ [c]) with
          | None =>
              match rest with [] => inr (cur ++ [c]) | _ => inl ENOENT end
          | Some Dir => go (cur ++ [c]) rest
          | Some (File _) =>
              match rest with [] => inr (cur ++ [c]) | _ => inl ENOTDIR end
          | Some (Symlink t) =>
              match rest, follow with
              | [], false => inr (cur ++ [c])
              | _, _ =>
                  match fuel with
                  | O => inl ELOOP
                  | S fuel' =>
                      let q := PurePath t in
                      walk fuel' f follow (if is_abs q then [] else cur)
                           (parts q ++ rest)
                  end
              end
          end
    end.

(** The kernel follows at most 40 links in one resolution. *)
Definition MAXSYMLINKS : nat := 40.

(** A relative path starts from the working directory, which must still
    be there. *)
Definition resolve (w : world) (follow : bool) (p : Path) : errno + list string :=
  if is_abs p then walk MAXSYMLINKS (fs w) follow [] (parts p)
  else match lookup_node (fs w) (cwd w) with
       | Some Dir => walk MAXSYMLINKS (fs w) follow (cwd w) (parts p)
       | _ => inl ENOENT
       end.

(** [os.stat] / [os.lstat]: the canonical path and the node found there. *)
Definition stat (w : world) (follow : bool) (p : Path) : errno + (list string * node) :=
  match resolve w follow p with
  | inl e => inl e
  | inr q =>
      match lookup_node (fs w) q with
      | Some n => inr (q, n)
      | None => inl ENOENT
      end
  end.

(** ** A state monad with exceptions *)
Definition M (A : Type) : Type := world -> (exn + A) * world.

Definition ret {A} (a : A) : M A := fun w => (inr a, w).
Definition raise {A} (e : exn) : M A := fun w => (inl e, w).
Definition bind {A B} (m : M A) (k : A -> M B) : M B :=
  fun w => match m w with
           | (inl e, w') => (inl e, w')
           | (inr a, w') => k a w'
           end.
(** [try: m except Exception as e: h e] *)
Definition catch {A} (m : M A) (h : exn -> M A) : M A :=
  fun w => match m w with
           | (inl e, w') => h e w'
           | r => r
           end.
Definition get_world : M world := fun w => (inr w, w).
Definition put_fs (f : gmap (list string) node) : M unit :=
  fun w => (inr tt, set_fs w f).

Notation "'let*' x ':=' m 'in' k" := (bind m (fun x => k))
  (at level 10, x pattern, m at level 100, k at level 200).
Notation "m ';;' k" := (bind m (fun _ => k))
  (at level 100, k at level 200, right associativity).

(** ** Operating-system primitives

    Each primitive takes the name [fname] it was called with, for the
    error it may raise, and the parsed path.  A [Path] object is handed
    over as it is; a raw string goes through [os_path] first. *)
Definition oserror {A} (e : errno) (fname : string) : M A :=
  raise (OSError e (Some fname)).

(** The kernel's reading of a raw path string; the empty string names
    nothing. *)
Definition os_path (s : string) : M Path :=
  if nonempty s then ret (PurePath s) else oserror ENOENT s.

Definition os_stat (follow : bool) (fname : string) (p : Path)
    : M (list string * node) :=
  fun w => match stat w follow p with
           | inl e => (inl (OSError e (Some fname)), w)
           | inr r => (inr r, w)
           end.

(** [p.is_dir()], [p.is_symlink()], [p.exists()]: failures read as [False]. *)
Definition is_dir (w : world) (p : Path) : bool :=
  match stat w true p with inr (_, Dir) => true | _ => false end.
Definition is_symlink (w : world) (p : Path) : bool :=
  match stat w false p with inr (_, Symlink _) => true | _ => false end.
Definition exists_ (w : world) (p : Path) : bool :=
  match stat w true p with inr _ => true | _ => false end.

Definition Path_is_dir (p : Path) : M bool := fun w => (inr (is_dir w p), w).
Definition Path_is_symlink (p : Path) : M bool := fun w => (inr (is_symlink w p), w).
Definition Path_exists (p : Path) : M bool := fun w => (inr (exists_ w p), w).

(** The entries of directory [d], by name. *)
Definition child_of (d : list string) (kv : list string * node) : option string :=
  match kv.1 with
  | [] => None
  | k => if decide (removelast k = d) then Some (List.last k "") else None
  end.
Definition children (f : gmap (list string) node) (d : list string) : list string :=
  omap (child_of d) (map_to_list f).

(** [os.listdir(s)] *)
Definition os_listdir (s : string) : M (list string) :=
  let* p := os_path s in
  let* (q, n) := os_stat true s p in
  match n with
  | Dir => let* w := get_world in ret (children (fs w) q)
  | _ => oserror ENOTDIR s
  end.

(** [os.rmdir]: only an empty directory goes; [.], [..] and the root are
    refused by the kernel whatever they hold. *)
Definition os_rmdir (fname : string) (p : Path) : M unit :=
  let name := List.last (parts p) "" in
  if negb (nonempty name) then oserror (if is_abs p then EBUSY else EINVAL) fname
  else if String.eqb name ".." then oserror ENOTEMPTY fname
  else
    let* (q, n) := os_stat false fname p in
    match n with
    | Dir =>
        let* w := get_world in
        match children (fs w) q with
        | [] => put_fs (delete q (fs w))
        | _ => oserror ENOTEMPTY fname
        end
    | _ => oserror ENOTDIR fname
    end.

(** [os.unlink]: removes a file or the link itself, never a directory. *)
Definition os_unlink (fname : string) (p : Path) : M unit :=
  let* (q, n) := os_stat false fname p in
  match n with
  | Dir => oserror EISDIR fname
  | _ => let* w := get_world in put_fs (delete q (fs w))
  end.

(** [os.mkdir] *)
Definition os_mkdir (fname : string) (p : Path) : M unit :=
  fun w => match resolve w false p with
           | inl e => (inl (OSError e (Some fname)), w)
           | inr q =>
               match lookup_node (fs w) q with
               | Some _ => (inl (OSError EEXIST (Some fname)), w)
               | None => (inr tt, set_fs w (<[q := Dir]> (fs w)))
               end
           end.

(** [Path.mkdir(parents, exist_ok)], as [pathlib] writes it; the recursion
    goes up one parent per level, [fuel] bounds it. *)
Fixpoint Path_mkdir_rec (fuel : nat) (p : Path) (parents exist_ok : bool) : M unit :=
  catch (os_mkdir (Path_str p) p) (fun e =>
    if is_FileNotFoundError e then
      if negb parents || is_top p then raise e
      else match fuel with
           | O => raise (RuntimeError "maximum recursion depth exceeded")
           | S fuel' =>
               Path_mkdir_rec fuel' (Path_parent p) true true ;;
               Path_mkdir_rec fuel' p false exist_ok
           end
    else if is_OSError e then
      let* d := Path_is_dir p in
      if negb exist_ok || negb d then raise e else ret tt
    else raise e).

Definition Path_mkdir (p : Path) (parents exist_ok : bool) : M unit :=
  Path_mkdir_rec (length (parts p)) p parents exist_ok.

(** [open(..., 'r').read()] *)
Definition read_file (fname : string) (p : Path) : M string :=
  let* (_, n) := os_stat true fname p in
  match n with
  | File data => ret data
  | Dir => oserror EISDIR fname
  | Symlink _ => oserror ELOOP fname
  end.

(** [open(..., 'w' or 'a').write(text)]: the file is created when missing. *)
Definition write_file (append : bool) (fname : string) (p : Path) (text : string)
    : M unit :=
  fun w => match resolve w true p with
           | inl e => (inl (OSError e (Some fname)), w)
           | inr q =>
               match lookup_node (fs w) q with
               | Some (File data) =>
                   (inr tt, set_fs w (<[q := File (if append then data +:+ text else text)]> (fs w)))
               | Some Dir => (inl (OSError EISDIR (Some fname)), w)
               | Some (Symlink _) => (inl (OSError ELOOP (Some fname)), w)
               | None => (inr tt, set_fs w (<[q := File text]> (fs w)))
               end
           end.

(** [os.getcwd()] *)
Definition os_getcwd : M string :=
  fun w => match lookup_node (fs w) (cwd w) with
           | Some Dir => (inr ("/" +:+ join "/" (cwd w)), w)
           | _ => (inl (OSError ENOENT None), w)
           end.

(** [os.chdir(s)] *)
Definition os_chdir (s : string) : M unit :=
  let* p := os_path s in
  let* (q, n) := os_stat true s p in
  match n with
  | Dir => fun w => (inr tt, set_cwd w q)
  | _ => oserror ENOTDIR s
  end.

(** ** [os.path.expanduser] *)

(** [s.rstrip('/')] *)
Fixpoint rstrip_slash (s : string) : string :=
  match s with
  | EmptyString => ""
  | String c r =>
      let r' := rstrip_slash r in
      if Ascii.eqb c "/" && negb (nonempty r') then "" else String c r'
  end.

(** Cut [s] at its first slash: the text before it, and the rest from the
    slash on. *)
Fixpoint break_slash (s : string) : string * string :=
  match s with
  | EmptyString => ("", "")
  | String c r =>
      if Ascii.eqb c "/" then ("", s)
      else let (name, tail) := break_slash r in (String c name, tail)
  end.

(** A path that does not start with [~] is returned as it is; [~] alone
    stands for the user's home, [~name] for the home of [name], and an
    unknown [name] leaves the path unchanged. *)
Definition expanduser (w : world) (path : string) : string :=
  match path with
  | String "~" r =>
      let (name, tail) := break_slash r in
      let userhome := if nonempty name then passwd w !! name else Some (home w) in
      match userhome with
      | None => path
      | Some h =>
          let r := rstrip_slash h +:+ tail in
          if nonempty r then r else "/"
      end
  | _ => path
  end.

(** [Path.home()] and the history file of the configuration. *)
Definition Path_home (w : world) : Path := PurePath (expanduser w "~").
Definition HISTORY_FILE (w : world) : Path :=
  Path_div (Path_home w) ".py_terminal_history".

(** ** [shutil.copy2]

    Into a directory the copy keeps the base name of the source; copying
    a file onto itself is refused; the content of [src] then replaces that
    of [dst].  Both paths are followed through symbolic links. *)
Definition samefile (w : world) (p q : Path) : bool :=
  match stat w true p, stat w true q with
  | inr (a, _), inr (b, _) => bool_decide (a = b)
  | _, _ => false
  end.

Definition shutil_copy2 (src dst : Path) : M unit :=
  let* d := Path_is_dir dst in
  let dst := if d then Path_div dst (Path_name src) else dst in
  let* w := get_world in
  if samefile w src dst then
    raise (ShutilError (repr (Path_str src) +:+ " and " +:+ repr (Path_str dst)
                        +:+ " are the same file"))
  else
    let* data := read_file (Path_str src) src in
    write_file false (Path_str dst) dst data.

(** ** The host: what lies outside the file tree

    Library calls whose effect is not a matter of the file tree modelled
    here (moving and copying whole trees, globbing, child processes, the
    terminal, process and machine statistics) are taken from the host. *)
Record Host := MkHost {
  shutil_move : string -> string -> M unit;
  shutil_copytree : string -> string -> M unit;
  glob_glob : string -> world -> list string;
  subprocess_check_output : list string -> M string;
  platform_system : string;
  os_system : string -> M nat;
  sysinfo_report : list string -> M string;
  ps_report : list string -> M string;
  top_report : list string -> M string
}.

(** ** Utility functions *)

(** [sorted(names)]: by code point, as Python compares strings. *)
Definition sorted (names : list string) : list string := merge_sort String.le names.

(** A [for] loop that appends to a list of output lines: [body item outs]
    is one round, started with the lines gathered so far. *)
Fixpoint for_each {A} (body : A -> list string -> M (list string))
    (items : list A) (outs : list string) : M (list string) :=
  match items with
  | [] => ret outs
  | x :: rest => let* outs' := body x outs in for_each body rest outs'
  end.

(** The suffix [list_dir] gives an entry: a directory is told first, a
    symbolic link only when it is not one.  [is_dir] and [is_symlink] do
    not raise here, so the inner [except] of the source has no case. *)
Definition mark (w : world) (path name : string) : string :=
  let p := Path_div (PurePath path) name in
  if is_dir w p then name +:+ "/"
  else if is_symlink w p then name +:+ "@"
  else name.

Definition list_dir (path : string) : M (list string) :=
  let* entries := os_listdir path in
  let* w := get_world in
  ret (List.map (mark w path) (sorted entries)).

(** ** Text files: universal newlines

    A file opened in text mode reads [\r\n] and a lone [\r] as [\n]. *)
Definition LF : ascii := "010"%char.
Definition CR : ascii := "013"%char.

Fixpoint universal_newlines (s : string) : string :=
  match s with
  | EmptyString => ""
  | String c r =>
      if Ascii.eqb c CR then
        String LF
          match r with
          | String c2 r2 =>
              if Ascii.eqb c2 LF then universal_newlines r2 else universal_newlines r
          | EmptyString => ""
          end
      else String c (universal_newlines r)
  end.

(** [f.readlines()] on text already translated: cut after each newline,
    which stays at the end of its line. *)
Fixpoint readlines (s : string) : list string :=
  match s with
  | EmptyString => []
  | String c r =>
      if Ascii.eqb c LF then NL :: readlines r
      else match readlines r with
           | l :: ls => String c l :: ls
           | [] => [String c ""]
           end
  end.

(** [l.rstrip('\n')] *)
Fixpoint rstrip_newline (s : string) : string :=
  match s with
  | EmptyString => ""
  | String c r =>
      let r' := rstrip_newline r in
      if Ascii.eqb c LF && negb (nonempty r') then "" else String c r'
  end.

(** [[f"{i+1}: {l}" for i, l in enumerate(lines)]] *)
Definition numbered (lines : list string) : list string :=
  imap (fun i l => str_nat (i + 1) +:+ ": " +:+ l) lines.

(** [s[n:]] *)
Fixpoint string_drop (n : nat) (s : string) : string :=
  match n, s with
  | S n', String _ r => string_drop n' r
  | _, _ => s
  end.

(** Built-in commands *)
Definition BUILTINS : list string :=
  ["ls"; "cd"; "pwd"; "mkdir"; "rm"; "rmdir"; "cat"; "touch"; "mv"; "cp"; "help";
   "exit"; "quit"; "clear"; "sysinfo"; "ps"; "top"; "history"].

(** [os.getenv('PATH', '').split(os.pathsep)] *)
Fixpoint split_colon (s : string) : list string :=
  match s with
  | EmptyString => [""]
  | String c r =>
      if Ascii.eqb c ":" then "" :: split_colon r
      else match split_colon r with
           | h :: t => String c h :: t
           | [] => [String c ""]
           end
  end.

(** ** Command implementations *)
Section Shell.
Context (host : Host).

Definition cmd_ls (args : list string) : M string :=
  let path := match args with a :: _ => a | [] => "." end in
  catch (let* items := list_dir path in ret (join NL items))
        (fun e => ret ("ls: cannot access '" +:+ path +:+ "': " +:+ str_exn e)).

Definition cmd_cd (args : list string) : M string :=
  let* w := get_world in
  let target := match args with a :: _ => a | [] => Path_str (Path_home w) end in
  catch (os_chdir (expanduser w target) ;; ret "")
        (fun e => ret ("cd: " +:+ str_exn e)).

Definition cmd_pwd (args : list string) : M string := os_getcwd.

Definition mkdir_body (d : string) (outputs : list string) : M (list string) :=
  catch (let* w := get_world in
         Path_mkdir (PurePath (expanduser w d)) true false ;; ret outputs)
        (fun e =>
           if is_FileExistsError e
           then ret (outputs ++ ["mkdir: cannot create directory '" +:+ d +:+ "': File exists"])
           else ret (outputs ++ ["mkdir: " +:+ d +:+ ": " +:+ str_exn e])).

Definition cmd_mkdir (args : list string) : M string :=
  match args with
  | [] => ret "mkdir: missing operand"
  | _ => let* outputs := for_each mkdir_body args [] in ret (join NL outputs)
  end.

Definition rm_body (target : string) (outputs : list string) : M (list string) :=
  let* w := get_world in
  let path := PurePath (expanduser w target) in
  catch (let* d := Path_is_dir path in
         let* l := Path_is_symlink path in
         if d && negb l then
           catch (os_rmdir (Path_str path) path ;; ret outputs)
                 (fun e =>
                    if is_OSError e
                    then ret (outputs ++ ["rm: cannot remove '" +:+ target +:+ "': Directory not empty"])
                    else raise e)
         else os_unlink (Path_str path) path ;; ret outputs)
        (fun e =>
           if is_FileNotFoundError e
           then ret (outputs ++ ["rm: cannot remove '" +:+ target +:+ "': No such file or directory"])
           else ret (outputs ++ ["rm: " +:+ target +:+ ": " +:+ str_exn e])).

Definition cmd_rm (args : list string) : M string :=
  match args with
  | [] => ret "rm: missing operand"
  | _ => let* outputs := for_each rm_body args [] in ret (join NL outputs)
  end.

Definition rmdir_body (d : string) (outs : list string) : M (list string) :=
  catch (let* w := get_world in
         let p := PurePath (expanduser w d) in
         os_rmdir (Path_str p) p ;; ret outs)
        (fun e => ret (outs ++ ["rmdir: " +:+ d +:+ ": " +:+ str_exn e])).

Definition cmd_rmdir (args : list string) : M string :=
  match args with
  | [] => ret "rmdir: missing operand"
  | _ => let* outs := for_each rmdir_body args [] in ret (join NL outs)
  end.

Definition cat_body (fname : string) (out_lines : list string) : M (list string) :=
  catch (let* w := get_world in
         let name := expanduser w fname in
         let* p := os_path name in
         let* text := read_file name p in
         ret (out_lines ++ [universal_newlines text]))
        (fun e => ret (out_lines ++ ["cat: " +:+ fname +:+ ": " +:+ str_exn e])).

Definition cmd_cat (args : list string) : M string :=
  match args with
  | [] => ret "cat: missing operand"
  | _ => let* out_lines := for_each cat_body args [] in ret (join NL out_lines)
  end.

Definition touch_body (t : string) (outs : list string) : M (list string) :=
  let* w := get_world in
  let p := PurePath (expanduser w t) in
  catch (Path_mkdir (Path_parent p) true true ;;
         let* e := Path_exists p in
         (if e then ret tt else write_file false (Path_str p) p "") ;;
         ret outs)
        (fun e => ret (outs ++ ["touch: " +:+ t +:+ ": " +:+ str_exn e])).

Definition cmd_touch (args : list string) : M string :=
  match args with
  | [] => ret "touch: missing operand"
  | _ => let* outs := for_each touch_body args [] in ret (join NL outs)
  end.

(** [*sources, dest = args] *)
Definition unpack_sources (args : list string) : list string := removelast args.
Definition unpack_dest (args : list string) : string := List.last args "".

Definition mv_body (dest : Path) (s : string) (outs : list string) : M (list string) :=
  catch (shutil_move host s (Path_str dest) ;; ret outs)
        (fun e => ret (outs ++ ["mv: " +:+ s +:+ ": " +:+ str_exn e])).

(** The outer [except] can only see what [dest.mkdir] raises, with [outs]
    still empty: every round of the loop catches its own exceptions. *)
Definition cmd_mv (args : list string) : M string :=
  if length args <? 2 then ret "mv: missing operand"
  else
    let sources := unpack_sources args in
    let* w := get_world in
    let dest := PurePath (expanduser w (unpack_dest args)) in
    let* outs :=
      catch (if 1 <? length sources then
               Path_mkdir dest true true ;;
               for_each (mv_body dest) sources []
             else
               mv_body dest (List.hd "" sources) [])
            (fun e => ret [str_exn e]) in
    ret (join NL outs).

Definition cp_body (dest : Path) (s : string) (outs : list string) : M (list string) :=
  catch (let* w := get_world in
         let s_path := PurePath (expanduser w s) in
         shutil_copy2 s_path (Path_div dest (Path_name s_path)) ;; ret outs)
        (fun e => ret (outs ++ ["cp: " +:+ s +:+ ": " +:+ str_exn e])).

Definition cp_single (dest : Path) (s : string) : M (list string) :=
  let* w := get_world in
  let s_path := PurePath (expanduser w s) in
  let* d := Path_is_dir dest in
  let target := if d then Path_div dest (Path_name s_path) else dest in
  catch (let* sd := Path_is_dir s_path in
         (if sd then shutil_copytree host (Path_str s_path) (Path_str target)
          else shutil_copy2 s_path target) ;;
         ret [])
        (fun e => ret ["cp: " +:+ Path_str s_path +:+ ": " +:+ str_exn e]).

Definition cmd_cp (args : list string) : M string :=
  if length args <? 2 then ret "cp: missing operand"
  else
    let sources := unpack_sources args in
    let* w := get_world in
    let dest := PurePath (expanduser w (unpack_dest args)) in
    let* outs :=
      catch (if 1 <? length sources then
               Path_mkdir dest true true ;;
               for_each (cp_body dest) sources []
             else
               cp_single dest (List.hd "" sources))
            (fun e => ret [str_exn e]) in
    ret (join NL outs).

Definition cmd_clear (args : list string) : M string :=
  (if String.eqb (platform_system host) "Windows"
   then os_system host "cls" else os_system host "clear") ;;
  ret "".

Definition help_text : string :=
"Built-in commands:
  ls [path]        - list directory contents
  cd [dir]         - change directory
  pwd              - print current working directory
  mkdir NAME...    - create directories
  rm NAME...       - remove files (won't remove non-empty dirs)
  rmdir NAME...    - remove empty directories
  cat FILE...      - print file contents
  touch FILE...    - create or update timestamp
  mv SRC... DEST   - move files or directories
  cp SRC... DEST   - copy files or directories
  clear            - clear the screen
  sysinfo          - show system information & resource usage
  ps               - list processes
  top              - show top CPU-consuming processes (limited)
  history          - show command history
  help             - show this help
  exit/quit        - quit the terminal

You may also run any system command (e.g., git, python) ‚Äî output will be shown if available.".

Definition cmd_help (args : list string) : M string := ret help_text.

(** Monitoring and process listing are the host's. *)
Definition cmd_sysinfo (args : list string) : M string := sysinfo_report host args.
Definition cmd_ps (args : list string) : M string := ps_report host args.
Definition cmd_top (args : list string) : M string := top_report host args.


(** The persistent history *)
Definition cmd_history (args : list string) : M string :=
  catch (let* w := get_world in
         let* text := read_file (Path_str (HISTORY_FILE w)) (HISTORY_FILE w) in
         let lines := List.map rstrip_newline (readlines (universal_newlines text)) in
         ret (join NL (numbered lines)))
        (fun e =>
           if is_FileNotFoundError e then ret "(no history)"
           else ret ("history: " +:+ str_exn e)).

Definition append_history_line (line : string) : M unit :=
  catch (let* w := get_world in
         write_file true (Path_str (HISTORY_FILE w)) (HISTORY_FILE w) (line +:+ NL))
        (fun _ => ret tt).

(** Command dispatcher *)
Definition DISPATCH : list (string * (list string -> M string)) :=
  [("ls", cmd_ls); ("cd", cmd_cd); ("pwd", cmd_pwd); ("mkdir", cmd_mkdir);
   ("rm", cmd_rm); ("rmdir", cmd_rmdir); ("cat", cmd_cat); ("touch", cmd_touch);
   ("mv", cmd_mv); ("cp", cmd_cp); ("clear", cmd_clear); ("help", cmd_help);
   ("sysinfo", cmd_sysinfo); ("ps", cmd_ps); ("top", cmd_top);
   ("history", cmd_history)].

(** [d.get(key)] on a dictionary written as its list of items. *)
Fixpoint dict_get {V} (d : list (string * V)) (key : string) : option V :=
  match d with
  | [] => None
  | (k, v) :: rest => if String.eqb k key then Some v else dict_get rest key
  end.

(** ** Completion *)

(** [path_complete(text)]: the matches of [text*], with the home
    directory written [~] and a slash after a directory. *)
Definition os_path_isdir (w : world) (s : string) : bool :=
  nonempty s && is_dir w (PurePath s).

Definition path_complete (w : world) (text : string) : list string :=
  let expanded := expanduser w text in
  let matches := glob_glob host (expanded +:+ "*") w in
  List.map (fun m =>
         let m_path := Path_str (PurePath m) in
         let h := Path_str (Path_home w) in
         let m_sh := if startswith m h
                     then "~" +:+ string_drop (String.length h) m_path
                     else m_path in
         if os_path_isdir w m then m_sh +:+ "/" else m_sh) matches.

(** One entry of a directory on the search path: kept when it starts
    with [text] and was not offered yet. *)
Definition scan_entry (text : string) (acc : list string * gset string) (f : string)
    : list string * gset string :=
  let (candidates, seen) := acc in
  if startswith f text && negb (bool_decide (f ∈ seen))
  then (candidates ++ [f], {[f]} ∪ seen)
  else acc.

(** One directory of the search path; an empty name and a directory
    that cannot be listed add nothing. *)
Definition scan_dir (w : world) (text : string) (acc : list string * gset string)
    (d : string) : list string * gset string :=
  if nonempty d then
    match os_listdir d w with
    | (inr names, _) => foldl (scan_entry text) acc names
    | (inl _, _) => acc
    end
  else acc.

Definition command_candidates (w : world) (text : string) : list string :=
  let candidates := List.filter (fun c => startswith c text) BUILTINS in
  let path_dirs := split_colon (env_PATH w) in
  let seen : gset string := list_to_set candidates in
  (foldl (scan_dir w text) (candidates, seen) path_dirs).1.

(** [begidx] is where the word being completed starts in the line
    buffer, as readline reports it. *)
Definition completer (w : world) (begidx : nat) (text : string) (state : nat)
    : option string :=
  let candidates :=
    if begidx =? 0 then command_candidates w text else path_complete w text in
  candidates !! state.

(** ** External commands *)
Definition run_external_command (cmd_tokens : list string) : M string :=
  catch (subprocess_check_output host cmd_tokens)
        (fun e =>
           match e with
           | CalledProcessError returncode output =>
               ret (if nonempty output then output
                    else "Command exited with " +:+ str_int returncode)
           | _ =>
               if is_FileNotFoundError e
               then ret (List.hd "" cmd_tokens +:+ ": command not found")
               else ret ("Error running command: " +:+ str_exn e)
           end).


(** ** The interpreter loop

    What [input(prompt)] brings: a line, or one of the two exceptions
    the loop takes as the end of the session. *)
Inductive input_event :=
| Line (line : string)
| EOFError
| KeyboardInterrupt.

(** Where one round of the [while True] loop leaves the interpreter:
    back to reading ([continue]), out of the loop ([break]), or thrown
    out of it by an exception nothing in the loop catches. *)
Inductive status :=
| Reading
| Exited
| Crashed (e : exn).

Definition PROMPT (cwd : string) : string := "py_terminal:" +:+ cwd +:+ "$ ".

(** [if res: print(res)] *)
Definition print_if (res : string) : list string :=
  if nonempty res then [res] else [].

(** The [elif cmd in DISPATCH] branch: the handler runs under
    [except Exception]. *)
Definition run_builtin (cmd : string) (handler : list string -> M string)
    (args : list string) (w : world) : list string * world :=
  match handler args w with
  | (inr res, w') => (print_if res, w')
  | (inl e, w') => (print_if (cmd +:+ ": error: " +:+ str_exn e), w')
  end.

(** From the tokens of a line to the end of the round. *)
Definition execute (parts : list string) (w : world) : status * list string * world :=
  match parts with
  | [] => (Reading, [], w)
  | cmd :: args =>
      if String.eqb cmd "exit" || String.eqb cmd "quit" then (Exited, [], w)
      else
        match dict_get DISPATCH cmd with
        | Some handler =>
            let (out, w') := run_builtin cmd handler args w in (Reading, out, w')
        | None =>
            if String.eqb cmd "?" || String.eqb cmd "help" then
              match cmd_help args w with
              | (inr res, w') => (Reading, [res], w')
              | (inl e, w') => (Crashed e, [], w')
              end
            else
              match run_external_command parts w with
              | (inr res, w') => (Reading, print_if res, w')
              | (inl e, w') => (Crashed e, [], w')
              end
        end
  end.

(** One round of the loop on what [input] brings.  The lines printed
    are returned in order; the prompt itself is not recorded. *)
Definition loop_round (ev : input_event) (w : world) : status * list string * world :=
  match os_getcwd w with
  | (inl e, w') => (Crashed e, [], w')
  | (inr _, w') =>
      match ev with
      | EOFError | KeyboardInterrupt => (Exited, [""], w')
      | Line line =>
          if is_blank line then (Reading, [], w')
          else
            let w1 := (append_history_line line w').2 in
            match shlex.split line with
            | inl e => (Crashed e, [], w1)
            | inr parts => execute parts w1
            end
      end
  end.

(** The loop over the lines the terminal will bring, end of input after
    the last.  The result tells how the loop ended, what was printed,
    and which events were never read. *)
Fixpoint run_loop (stdin : list input_event) (w : world)
    : status * list string * list input_event * world :=
  match stdin with
  | [] =>
      let '(st, out, w') := loop_round EOFError w in (st, out, [], w')
  | ev :: rest =>
      match loop_round ev w with
      | (Reading, out, w') =>
          let '(st, out', unread, w'') := run_loop rest w' in
          (st, out ++ out', unread, w'')
      | (st, out, w') => (st, out, rest, w')
      end
  end.

End Shell.

(** ** Notions used to state the properties *)

(** A character the tokenizer takes as it is: no blank, quote or
    backslash; and a token made of such characters only, at least one. *)
Definition plain_char (c : ascii) : bool :=
  negb (shlex.is_whitespace c) && negb (shlex.is_quote c) && negb (shlex.is_escape c).
Definition plain_token (t : string) : bool :=
  nonempty t && string_forallb plain_char t.

Definition rm_refused (target : string) : string :=
  "rm: cannot remove '" +:+ target +:+ "': Directory not empty".

(** The name of a directory entry: not empty, neither [.] nor [..], and
    without a slash. *)
Definition valid_name (c : string) : bool :=
  nonempty c && negb (String.eqb c ".") && negb (String.eqb c "..")
  && string_forallb (fun a => negb (Ascii.eqb a "/")) c.

(** A well-formed file tree: every object has a proper name and sits in a
    directory. *)
Definition wf_entry (f : gmap (list string) node) (k : list string) : bool :=
  match k with
  | [] => false
  | _ =>
      forallb valid_name k
      && match lookup_node f (removelast k) with Some Dir => true | _ => false end
  end.
Definition wf_fs (f : gmap (list string) node) : Prop :=
  map_Forall (fun k _ => wf_entry f k = true) f.

(** The content of the file a source of [cp] names, if it names one, and
    the base name it is copied under. *)
Definition file_content (w : world) (s : string) : option string :=
  match stat w true (PurePath (expanduser w s)) with
  | inr (_, File data) => Some data
  | _ => None
  end.
Definition source_name (w : world) (s : string) : string :=
  Path_name (PurePath (expanduser w s)).

(** ** A sample session

    A small tree: the home of user [u] holds a file, a directory with one
    file in it, and a link to each of the two; [/bin] holds two programs,
    one named like a builtin. *)
Definition demo_fs : gmap (list string) node :=
  list_to_map
    [ (["home"], Dir); (["home"; "u"], Dir);
      (["home"; "u"; "existing.txt"], File "hello");
      (["home"; "u"; "a.txt"], File "alpha");
      (["home"; "u"; "d"], Dir); (["home"; "u"; "d"; "x"], File "x");
      (["home"; "u"; "ld"], Symlink "d");
      (["home"; "u"; "lf"], Symlink "existing.txt");
      (["bin"], Dir); (["bin"; "ls"], File ""); (["bin"; "lsattr"], File "") ].

Definition demo_world : world :=
  World demo_fs ["home"; "u"] "/home/u" ∅ "/bin:/usr/bin".

(** A host that does nothing, but whose [sysinfo] fails. *)
Definition demo_host : Host :=
  MkHost (fun _ _ => ret tt) (fun _ _ => ret tt) (fun _ _ => [])
         (fun _ => ret "") "Linux" (fun _ => ret 0)
         (fun _ => raise (RuntimeError "no statistics"))
         (fun _ => ret "") (fun _ => ret "").

(** A line of text: no line feed and no carriage return in it. *)
Definition no_linebreak (l : string) : bool :=
  string_forallb (fun c => negb (Ascii.eqb c LF) && negb (Ascii.eqb c CR)) l.

(** The text of a file made of the given lines, each ended by a newline. *)
Fixpoint lines_text (ls : list string) : string :=
  match ls with
  | [] => ""
  | l :: rest => l +:+ NL +:+ lines_text rest
  end.

(** The world after [append_history_line] was called on each line in turn. *)
Definition append_lines (ls : list string) (w : world) : world :=
  foldl (fun w l => (append_history_line l w).2) w ls.

(** [f'] has every object of [f], of the same kind: directories and links
    are kept as they are, a file may have another content. *)
Definition same_kind (n n' : node) : Prop :=
  match n, n' with
  | File _, File _ => True
  | Dir, Dir => True
  | Symlink t, Symlink t' => t = t'
  | _, _ => False
  end.
Definition extends (f f' : gmap (list string) node) : Prop :=
  forall k n, f !! k = Some n -> exists n', f' !! k = Some n' /\ same_kind n n'.

(** Where the history stands: the file resolves to [q], and holds [text]
    there ([None] when the file is not there yet). *)
Definition history_at (w : world) (q : list string) (text : option string) : Prop :=
  resolve w true (HISTORY_FILE w) = inr q
  /\ lookup_node (fs w) q = File <$> text.

(** What the scan of the search path keeps true: the candidates are the
    list [bs] it started from followed by other names, none twice, and
    [seen] is the set of the candidates. *)
Definition scan_inv (bs : list string) (acc : list string * gset string) : Prop :=
  exists ext, acc.1 = bs ++ ext /\ NoDup acc.1 /\ acc.2 = list_to_set acc.1.

(** A host whose [shutil.move] handles plain files, the way [shutil.move]
    falls back to when it cannot rename: copy the content to the
    destination, then unlink the source.  It takes both names as they
    come, as [shutil.move] does. *)
Definition file_move (src dst : string) : M unit :=
  let* sp := os_path src in
  let* dp := os_path dst in
  let* data := read_file src sp in
  write_file false dst dp data ;;
  os_unlink src sp.

Definition move_host : Host :=
  MkHost file_move (fun _ _ => ret tt) (fun _ _ => [])
         (fun _ => ret "") "Linux" (fun _ => ret 0)
         (fun _ => ret "") (fun _ => ret "") (fun _ => ret "").

(** What the loop of [cp] keeps true of the tree [f] it works on, for the
    new directory [D]: the tree [f0] it started from is all there, [D] is
    a directory, and right below [D] there are only files. *)
Definition cp_inv (f0 : gmap (list string) node) (D : list string)
    (f : gmap (list string) node) : Prop :=
  f0 ⊆ f /\ f !! D = Some Dir
  /\ forall name, f !! (D ++ [name]) = None
                  \/ exists d, f !! (D ++ [name]) = Some (File d).

(** A token written between single quotes, and a token that can be: one
    that holds no single quote. *)
Definition squote (t : string) : string := "'" +:+ t +:+ "'".
Definition no_squote (t : string) : bool :=
  string_forallb (fun c => negb (Ascii.eqb c "'")) t.

(** A computation that reads the world and leaves it as it was, whether
    it returns or raises. *)
Definition keeps {A} (m : M A) : Prop := forall w, (m w).2 = w.


(** The tree [f] with the directories [names] added below [D], each one
    inside the one before. *)
Fixpoint add_dirs (f : gmap (list string) node) (D names : list string)
    : gmap (list string) node :=
  match names with
  | [] => f
  | a :: rest => add_dirs (<[D ++ [a] := Dir]> f) (D ++ [a]) rest
  end.

(** Text without quotes and backslashes, and text that does not close a
    quotation opened by [q]: it holds no [q], nor, inside double quotes,
    a backslash. *)
Definition no_quoting (s : string) : bool :=
  string_forallb (fun c => negb (shlex.is_quote c) && negb (shlex.is_escape c)) s.
Definition stays_open (q : ascii) (body : string) : bool :=
  string_forallb
    (fun c => negb (Ascii.eqb c q)
              && negb (shlex.is_escape c && shlex.is_escapedquote q)) body.


(** * Properties *)

Example split_mkdir :
  shlex.split "mkdir 'a b' c" = inr ["mkdir"; "a b"; "c"].
Proof. reflexivity. Qed.

Example split_unterminated :
  shlex.split "echo 'x" = inl (ValueError "No closing quotation").
Proof. reflexivity. Qed.


(** ** The tokenizer *)
Module shlex_facts.
Import shlex.

Lemma read_loop_rest input : forall st es q tok rest st' q' tok',
  read_loop input st es q tok = inr (rest, st', q', tok') ->
  String.length rest <= String.length input.
Proof.
  induction input as [|c r IH]; intros st es q tok rest st' q' tok' H.
  - destruct st; simpl in H; inversion H; subst; simpl; lia.
  - simpl in H.
    destruct st; simpl;
      repeat match type of H with
             | context [if ?b then _ else _] => destruct b
             | context [match ?e with st_none => _ | _ => _ end] => destruct e
             end;
      first [ inversion H; subst; lia | apply IH in H; lia ].
Qed.

Lemma read_loop_consumes c r st es q tok rest st' q' tok' :
  read_loop (String c r) st es q tok = inr (rest, st', q', tok') ->
  String.length rest <= String.length r.
Proof.
  intros H. simpl in H.
  destruct st;
    repeat match type of H with
           | context [if ?b then _ else _] => destruct b
           | context [match ?e with st_none => _ | _ => _ end] => destruct e
           end;
    first [ inversion H; subst; lia | apply read_loop_rest in H; lia ].
Qed.

Lemma read_token_empty st t lx' :
  read_token (Lexer st "") = inr (Some t, lx') -> False.
Proof. unfold read_token; destruct st; simpl; congruence. Qed.

Lemma read_token_consumes st c r res lx' :
  read_token (Lexer st (String c r)) = inr (res, lx') ->
  String.length (instream lx') <= String.length r.
Proof.
  unfold read_token. cbn [instream state].
  destruct (read_loop (String c r) st st_space false "")
    as [e|[[[rest st'] q'] tok']] eqn:R; [discriminate|].
  apply read_loop_consumes in R. intros E; inversion E; subst. exact R.
Qed.

Lemma tokens_enough n : forall lx,
  String.length (instream lx) < n -> tokens n lx <> None.
Proof.
  induction n as [|n IH]; intros [st input] Hn; [simpl in Hn; lia|].
  simpl. destruct (read_token (Lexer st input)) as [e|[[t|] lx']] eqn:E; try congruence.
  assert (String.length (instream lx') < n) as Hlt.
  { destruct input as [|c r]; [exfalso; eapply read_token_empty; eauto|].
    apply read_token_consumes in E. simpl in Hn. lia. }
  specialize (IH lx' Hlt). destruct (tokens n lx') as [[e|ts]|]; congruence.
Qed.

Lemma tokens_more n : forall lx r m,
  tokens n lx = Some r -> n <= m -> tokens m lx = Some r.
Proof.
  induction n as [|n IH]; intros lx r m H Hm; [discriminate|].
  destruct m as [|m]; [lia|]. simpl in *.
  destruct (read_token lx) as [e|[[t|] lx']]; auto.
  destruct (tokens n lx') as [r'|] eqn:E; [|discriminate].
  rewrite (IH lx' r' m E) by lia. exact H.
Qed.

(** The tokenizer never runs out of fuel: [split] is what the lexer
    yields. *)
Lemma split_tokens line :
  tokens (split_fuel line) (Lexer st_space line) = Some (split line).
Proof.
  unfold split.
  destruct (tokens (split_fuel line) (Lexer st_space line)) eqn:E; [reflexivity|].
  exfalso. eapply tokens_enough; [|exact E]. unfold split_fuel; simpl; lia.
Qed.

Lemma split_from_tokens line n r :
  tokens n (Lexer st_space line) = Some r -> split line = r.
Proof.
  intros H. pose proof (split_tokens line) as S.
  destruct (Nat.le_ge_cases n (split_fuel line)) as [L|L].
  - rewrite (tokens_more _ _ _ _ H L) in S. congruence.
  - rewrite (tokens_more _ _ _ _ S L) in H. congruence.
Qed.
End shlex_facts.

Module retokenize.
Import shlex shlex_facts.

Lemma push_app tok c r : push tok c +:+ r = tok +:+ String c r.
Proof.
  unfold push. induction tok as [|a tok IH]; [reflexivity|].
  change (String a ((tok +:+ String c "") +:+ r) = String a (tok +:+ String c r)).
  f_equal. exact IH.
Qed.

Lemma app_empty_r (s : string) : s +:+ "" = s.
Proof.
  induction s as [|a s IH]; [reflexivity|].
  change (String a (s +:+ "") = String a s). f_equal. exact IH.
Qed.

Lemma nonempty_push tok c : nonempty (push tok c) = true.
Proof. destruct tok; reflexivity. Qed.

(** Inside a word, plain characters pile up until a blank or the end. *)
Lemma read_word t : forall tok es rest,
  string_forallb plain_char t = true ->
  nonempty tok = true ->
  read_loop (t +:+ String " " rest) st_word es false tok
    = inr (rest, st_space, false, tok +:+ t)
  /\ read_loop t st_word es false tok = inr ("", st_none, false, tok +:+ t).
Proof.
  induction t as [|c t IH]; intros tok es rest Hp Hne.
  - simpl. rewrite Hne, app_empty_r. auto.
  - simpl in Hp. apply andb_prop in Hp as [Hc Ht].
    unfold plain_char in Hc. apply andb_prop in Hc as [Hc He].
    apply andb_prop in Hc as [Hw Hq].
    apply negb_true_iff in Hw, Hq, He.
    change (String c t +:+ String " " rest) with (String c (t +:+ String " " rest)).
    cbn [read_loop]. rewrite Hw, Hq, He.
    destruct (IH (push tok c) es rest Ht (nonempty_push _ _)) as [A B].
    rewrite A, B, push_app. auto.
Qed.

(** A plain token is read back whole, from between two tokens. *)
Lemma read_plain_token t rest :
  plain_token t = true ->
  read_token (Lexer st_space (t +:+ String " " rest)) = inr (Some t, Lexer st_space rest)
  /\ read_token (Lexer st_space t) = inr (Some t, Lexer st_none "").
Proof.
  unfold plain_token. intros H. apply andb_prop in H as [Hne Hp].
  destruct t as [|c t]; [discriminate|].
  simpl in Hp. apply andb_prop in Hp as [Hc Ht].
  pose proof Hc as Hc'. unfold plain_char in Hc'. apply andb_prop in Hc' as [Hc' He].
  apply andb_prop in Hc' as [Hw Hq].
  apply negb_true_iff in Hw, Hq, He.
  unfold read_token. cbn [instream state].
  change (String c t +:+ String " " rest) with (String c (t +:+ String " " rest)).
  cbn [read_loop]. rewrite Hw, Hq, He.
  destruct (read_word t (String c "") st_space rest Ht eq_refl) as [A B].
  rewrite A, B. simpl. auto.
Qed.

Lemma tokens_join ts :
  Forall (fun t => plain_token t = true) ts ->
  exists n, tokens n (Lexer st_space (join " " ts)) = Some (inr ts).
Proof.
  induction 1 as [|t ts Ht Hts [n IH]].
  - exists 1. reflexivity.
  - destruct ts as [|t2 ts].
    + exists 2. simpl.
      destruct (read_plain_token t "" Ht) as [_ B]. rewrite B. reflexivity.
    + exists (S n).
      change (join " " (t :: t2 :: ts)) with (t +:+ String " " (join " " (t2 :: ts))).
      cbn [tokens].
      destruct (read_plain_token t (join " " (t2 :: ts)) Ht) as [A _].
      rewrite A, IH. reflexivity.
Qed.

Lemma split_join ts :
  Forall (fun t => plain_token t = true) ts -> split (join " " ts) = inr ts.
Proof.
  intros H. destruct (tokens_join ts H) as [n Hn].
  eapply split_from_tokens; eauto.
Qed.
End retokenize.

(** C2, as stated: tokenizing, joining with single spaces and tokenizing
    again does not always give the first tokens back.  The line ['a b']
    is one token that holds a space; joined, it reads as two. *)
Lemma retokenize_counterexample :
  ~ (forall line ts, shlex.split line = inr ts ->
       shlex.split (join " " ts) = inr ts).
Proof.
  intros H. specialize (H "'a b'" ["a b"] eq_refl). vm_compute in H. discriminate.
Qed.

(** C2, amended: when tokenization succeeds and every token is plain (not
    empty, and free of blanks, quotes and backslashes), joining the tokens
    with single spaces and tokenizing again yields the same tokens. *)
Theorem retokenize_plain_tokens (line : string) (ts : list string) :
  shlex.split line = inr ts ->
  Forall (fun t => plain_token t = true) ts ->
  shlex.split (join " " ts) = inr ts.
Proof. intros _ H. apply retokenize.split_join, H. Qed.

Lemma retokenize_plain_tokens_witness :
  shlex.split "mkdir  a   b" = inr ["mkdir"; "a"; "b"]
  /\ shlex.split (join " " ["mkdir"; "a"; "b"]) = inr ["mkdir"; "a"; "b"].
Proof.
  split; [reflexivity|].
  apply (retokenize_plain_tokens "mkdir  a   b"); [reflexivity|].
  repeat constructor.
Defined.

(** ** Path resolution *)
Section walk_facts.
Implicit Types (f : gmap (list string) node) (cur comps : list string).

Lemma walk_nil n f follow cur : walk n f follow cur [] = inr cur.
Proof. destruct n; reflexivity. Qed.

Lemma walk_cons n f follow cur c rest :
  walk n f follow cur (c :: rest) =
    if String.eqb c ".." then walk n f follow (removelast cur) rest
    else match f !! (cur ++ [c]) with
         | None => match rest with [] => inr (cur ++ [c]) | _ => inl ENOENT end
         | Some Dir => walk n f follow (cur ++ [c]) rest
         | Some (File _) =>
             match rest with [] => inr (cur ++ [c]) | _ => inl ENOTDIR end
         | Some (Symlink t) =>
             match rest, follow with
             | [], false => inr (cur ++ [c])
             | _, _ =>
                 match n with
                 | O => inl ELOOP
                 | S n' =>
                     walk n' f follow
                       (if is_abs (PurePath t) then [] else cur)
                       (parts (PurePath t) ++ rest)
                 end
             end
         end.
Proof. destruct n; reflexivity. Qed.

(** Induction along a walk: on the links still allowed, then on the
    components left. *)
Lemma walk_induction f (P : nat -> list string -> list string -> Prop) :
  (forall n cur, P n cur []) ->
  (forall n cur c rest,
      (forall cur', P n cur' rest) ->
      (forall m cur' comps', m < n -> P m cur' comps') ->
      P n cur (c :: rest)) ->
  forall n cur comps, P n cur comps.
Proof.
  intros Hnil Hcons n. induction n as [n IHn] using lt_wf_ind.
  intros cur comps. revert cur. induction comps as [|c rest IH]; intros cur.
  - apply Hnil.
  - apply Hcons; [exact IH|]. intros m cur' comps' Hm. apply IHn, Hm.
Qed.

(** Following the last link too changes nothing when the walk fails, or
    ends on something that is not a link. *)
Lemma walk_follow_err f n cur comps e :
  walk n f false cur comps = inl e -> walk n f true cur comps = inl e.
Proof.
  revert n cur comps.
  refine (walk_induction f _ _ _).
  - intros n cur. rewrite walk_nil. discriminate.
  - intros n cur c rest IH IHn. rewrite !walk_cons.
    destruct (String.eqb c ".."); [apply IH|].
    destruct (f !! (cur ++ [c])) as [[d| |t]|]; auto.
    destruct rest as [|c2 rest]; [discriminate|].
    destruct n as [|n]; [auto|]. apply IHn. lia.
Qed.

Lemma walk_follow_ok f n cur comps q :
  walk n f false cur comps = inr q ->
  (forall t, f !! q <> Some (Symlink t)) ->
  walk n f true cur comps = inr q.
Proof.
  revert n cur comps.
  refine (walk_induction f _ _ _).
  - intros n cur. rewrite !walk_nil. auto.
  - intros n cur c rest IH IHn. rewrite !walk_cons.
    destruct (String.eqb c ".."); [apply IH|].
    destruct (f !! (cur ++ [c])) as [[d| |t]|] eqn:E; auto.
    destruct rest as [|c2 rest].
    + intros H Hq. inversion H; subst. exfalso. eapply Hq, E.
    + destruct n as [|n]; [auto|]. apply IHn. lia.
Qed.
End walk_facts.

Lemma lookup_node_snoc (f : gmap (list string) node) cur c :
  lookup_node f (cur ++ [c]) = f !! (cur ++ [c]).
Proof. destruct cur; reflexivity. Qed.

Lemma lookup_node_cons (f : gmap (list string) node) c k :
  lookup_node f (c :: k) = f !! (c :: k).
Proof. reflexivity. Qed.

Lemma resolve_follow_err w p e :
  resolve w false p = inl e -> resolve w true p = inl e.
Proof.
  unfold resolve. destruct (is_abs p); [apply walk_follow_err|].
  destruct (lookup_node (fs w) (cwd w)) as [[| |]|];
    first [apply walk_follow_err | exact (fun H => H)].
Qed.

Lemma resolve_follow_ok w p q :
  resolve w false p = inr q ->
  (forall t, fs w !! q <> Some (Symlink t)) ->
  resolve w true p = inr q.
Proof.
  unfold resolve. destruct (is_abs p); [apply walk_follow_ok|].
  destruct (lookup_node (fs w) (cwd w)) as [[| |]|];
    first [apply walk_follow_ok | discriminate].
Qed.

(** What [lstat] finds is what [stat] finds, unless it is a link. *)
Lemma stat_follow_err w p e :
  stat w false p = inl e -> stat w true p = inl e.
Proof.
  unfold stat. destruct (resolve w false p) as [e'|q] eqn:R.
  - intros H; inversion H; subst. rewrite (resolve_follow_err _ _ _ R). reflexivity.
  - destruct (lookup_node (fs w) q) as [n|] eqn:L; [discriminate|].
    intros H; inversion H; subst.
    rewrite (resolve_follow_ok _ _ _ R), L; [reflexivity|].
    intros t Ht. destruct q; simpl in L; congruence.
Qed.

Lemma stat_follow_ok w p q n :
  stat w false p = inr (q, n) -> (forall t, n <> Symlink t) ->
  stat w true p = inr (q, n).
Proof.
  unfold stat. destruct (resolve w false p) as [e'|q'] eqn:R; [discriminate|].
  destruct (lookup_node (fs w) q') as [n'|] eqn:L; [|discriminate].
  intros H Hn; inversion H; subst.
  destruct q as [|c k].
  - (* the root: only an empty walk or [..] steps end there *)
    simpl in L. inversion L; subst.
    assert (resolve w true p = inr []) as ->; [|reflexivity].
    revert R. unfold resolve.
    assert (forall m cur comps, walk m (fs w) false cur comps = inr [] ->
                                walk m (fs w) true cur comps = inr []) as W.
    { refine (walk_induction (fs w) _ _ _).
      - intros m cur. rewrite !walk_nil. auto.
      - intros m cur c rest IH IHm. rewrite !walk_cons.
        destruct (String.eqb c ".."); [apply IH|].
        destruct (fs w !! (cur ++ [c])) as [[d| |t]|]; auto.
        destruct rest as [|c2 rest].
        + intros E; inversion E. destruct cur; discriminate.
        + destruct m as [|m]; [auto|]. apply IHm. lia. }
    destruct (is_abs p); [apply W|].
    destruct (lookup_node (fs w) (cwd w)) as [[| |]|];
      first [apply W | discriminate].
  - rewrite (resolve_follow_ok _ _ _ R), L; [reflexivity|].
    intros t Ht. rewrite lookup_node_cons in L. rewrite Ht in L.
    inversion L; subst. eapply Hn; reflexivity.
Qed.

(** ** One round of [rm] *)

Ltac mrun := unfold bind, catch, ret, raise, get_world, put_fs, oserror,
  os_stat, Path_is_dir, Path_is_symlink, Path_exists.
Ltac mstep := cbv beta iota delta [andb negb orb].


Lemma rm_body_unlinks w target outs q n :
  stat w false (PurePath (expanduser w target)) = inr (q, n) ->
  n <> Dir ->
  rm_body target outs w = (inr outs, set_fs w (delete q (fs w))).
Proof.
  intros H Hn. unfold rm_body, os_unlink. mrun. unfold is_dir, is_symlink.
  destruct n as [d| |t]; [|congruence|].
  - rewrite (stat_follow_ok _ _ _ _ H) by discriminate. mstep. rewrite H. reflexivity.
  - rewrite H.
    destruct (stat w true (PurePath (expanduser w target))) as [?|[? [| |]]];
      mstep; rewrite H; reflexivity.
Qed.

(** [os.rmdir] fails with an [OSError] only, and then changes nothing. *)
Lemma os_rmdir_error w fname p e w' :
  os_rmdir fname p w = (inl e, w') -> is_OSError e = true /\ w' = w.
Proof.
  unfold os_rmdir. mrun.
  destruct (negb (nonempty (List.last (parts p) ""))).
  { intros E; inversion E; auto. }
  destruct (String.eqb (List.last (parts p) "") "..").
  { intros E; inversion E; auto. }
  destruct (stat w false p) as [e'|[q [d| |t]]]; mstep;
    try (intros E; inversion E; auto; fail).
  destruct (children (fs w) q); intros E; inversion E; auto.
Qed.

Lemma rm_body_directory w target outs q :
  stat w false (PurePath (expanduser w target)) = inr (q, Dir) ->
  rm_body target outs w =
    match os_rmdir (Path_str (PurePath (expanduser w target)))
                   (PurePath (expanduser w target)) w with
    | (inr _, w') => (inr outs, w')
    | (inl _, w') => (inr (outs ++ [rm_refused target]), w')
    end.
Proof.
  intros H. unfold rm_body. mrun. unfold is_dir, is_symlink.
  rewrite (stat_follow_ok _ _ _ _ H) by discriminate. rewrite H. mstep.
  destruct (os_rmdir _ _ w) as [[e|[]] w'] eqn:E; [|reflexivity].
  destruct (os_rmdir_error _ _ _ _ _ E) as [-> _]. reflexivity.
Qed.





(** C10: a target of [rm] that is a symbolic link is unlinked itself.  The
    round removes the one entry of the link and prints nothing, wherever
    the link leads; every other object, the one the link names among them,
    stays as it was. *)
Theorem rm_symlink_unlinks_link (w : world) (target tgt : string)
    (outs q : list string) :
  stat w false (PurePath (expanduser w target)) = inr (q, Symlink tgt) ->
  rm_body target outs w = (inr outs, set_fs w (delete q (fs w)))
  /\ cmd_rm [target] w = (inr "", set_fs w (delete q (fs w)))
  /\ (forall k, k <> q -> fs (set_fs w (delete q (fs w))) !! k = fs w !! k).
Proof.
  intros H. split; [|split].
  - apply (rm_body_unlinks _ _ _ _ _ H). discriminate.
  - unfold cmd_rm. cbn [for_each]. unfold bind, ret.
    rewrite (rm_body_unlinks _ _ _ _ _ H) by discriminate. reflexivity.
  - intros k Hk. cbn [fs set_fs]. apply lookup_delete_ne. congruence.
Qed.

Lemma rm_symlink_unlinks_link_witness :
  stat demo_world false (PurePath (expanduser demo_world "ld"))
    = inr (["home"; "u"; "ld"], Symlink "d")
  /\ children (fs demo_world) ["home"; "u"; "d"] = ["x"]
  /\ cmd_rm ["ld"] demo_world
     = (inr "", set_fs demo_world (delete ["home"; "u"; "ld"] (fs demo_world))).
Proof.
  split; [reflexivity|]. split; [reflexivity|].
  apply (rm_symlink_unlinks_link demo_world "ld" "d" [] ["home"; "u"; "ld"]).
  reflexivity.
Defined.

(** ** Completion of command names *)
Section completion.
Context (w : world) (text : string) (bs : list string).

Lemma scan_entry_inv acc f : scan_inv bs acc -> scan_inv bs (scan_entry text acc f).
Proof.
  destruct acc as [cands seen]. intros (ext & E & N & S).
  cbn [fst snd] in E, N, S. unfold scan_entry.
  destruct (startswith f text && negb (bool_decide (f ∈ seen))) eqn:C;
    [|exists ext; auto].
  apply andb_prop in C as [_ C]. apply negb_true_iff, bool_decide_eq_false in C.
  exists (ext ++ [f]). cbn [fst snd]. split; [|split].
  - rewrite E, app_assoc. reflexivity.
  - apply NoDup_app. split; [exact N|]. split; [|apply NoDup_singleton].
    intros x Hx Hf. apply list_elem_of_singleton in Hf. subst x.
    apply C. rewrite S. apply elem_of_list_to_set. exact Hx.
  - rewrite S, list_to_set_app_L. cbn [list_to_set].
    rewrite union_empty_r_L. apply union_comm_L.
Qed.

Lemma scan_entries_inv names : forall acc,
  scan_inv bs acc -> scan_inv bs (foldl (scan_entry text) acc names).
Proof.
  induction names as [|f names IH]; intros acc H; [exact H|].
  cbn [foldl]. apply IH, scan_entry_inv, H.
Qed.

Lemma scan_dir_inv acc d : scan_inv bs acc -> scan_inv bs (scan_dir w text acc d).
Proof.
  intros H. unfold scan_dir. destruct (nonempty d); [|exact H].
  destruct (os_listdir d w) as [[e|names] w']; [exact H|].
  apply scan_entries_inv, H.
Qed.

Lemma scan_dirs_inv dirs : forall acc,
  scan_inv bs acc -> scan_inv bs (foldl (scan_dir w text) acc dirs).
Proof.
  induction dirs as [|d dirs IH]; intros acc H; [exact H|].
  cbn [foldl]. apply IH, scan_dir_inv, H.
Qed.
End completion.

Lemma BUILTINS_NoDup : NoDup BUILTINS.
Proof. apply (bool_decide_unpack (NoDup BUILTINS)). vm_compute. exact I. Qed.

Lemma filter_NoDup {A} (p : A -> bool) (l : list A) :
  NoDup l -> NoDup (List.filter p l).
Proof.
  induction 1 as [|x l Hx Hl IH]; cbn [List.filter]; [constructor|].
  destruct (p x); [|exact IH].
  constructor; [|exact IH].
  rewrite list_elem_of_In, filter_In, <- list_elem_of_In. tauto.
Qed.

Lemma command_candidates_shape w text :
  exists ext,
    command_candidates w text
    = List.filter (fun c => startswith c text) BUILTINS ++ ext
    /\ NoDup (List.filter (fun c => startswith c text) BUILTINS ++ ext).
Proof.
  unfold command_candidates.
  generalize (filter_NoDup (fun c => startswith c text) BUILTINS BUILTINS_NoDup).
  generalize (List.filter (fun c => startswith c text) BUILTINS). intros bs Hbs.
  destruct (scan_dirs_inv w text bs (split_colon (env_PATH w))
              (bs, list_to_set bs)) as (ext & E & N & _).
  { exists []. cbn [fst snd]. rewrite app_nil_r. auto. }
  exists ext. rewrite <- E. auto.
Qed.

Lemma filter_true_id {A} (l : list A) : List.filter (fun _ => true) l = l.
Proof. induction l as [|a l IH]; cbn [List.filter]; congruence. Qed.

Lemma startswith_empty s : startswith s "" = true.
Proof. destruct s; reflexivity. Qed.

(** C7: at command position the candidates are the builtins that start
    with the text, in the order of [BUILTINS], followed by names found on
    the search path; no candidate comes twice, so every matching builtin
    is yielded at exactly one [state], before any external name, and a
    program named like a builtin adds nothing.  With the empty text the
    matching builtins are all of [BUILTINS]. *)
Theorem completer_builtins_once (host : Host) (w : world) (text : string) :
  exists ext,
    (forall state,
       completer host w 0 text state
       = (List.filter (fun c => startswith c text) BUILTINS ++ ext) !! state)
    /\ NoDup (List.filter (fun c => startswith c text) BUILTINS ++ ext)
    /\ (forall b, b ∈ BUILTINS -> startswith b text = true ->
          exists i,
            i < length (List.filter (fun c => startswith c text) BUILTINS)
            /\ completer host w 0 text i = Some b
            /\ forall j, completer host w 0 text j = Some b -> j = i)
    /\ (text = "" -> List.filter (fun c => startswith c text) BUILTINS = BUILTINS).
Proof.
  destruct (command_candidates_shape w text) as (ext & E & N).
  exists ext.
  assert (forall state, completer host w 0 text state
            = (List.filter (fun c => startswith c text) BUILTINS ++ ext) !! state) as C.
  { intros state. unfold completer. cbn [Nat.eqb]. rewrite E. reflexivity. }
  split; [exact C|]. split; [exact N|]. split.
  - intros b Hb Hs.
    assert (b ∈ List.filter (fun c => startswith c text) BUILTINS) as Hm.
    { rewrite list_elem_of_In, filter_In, <- list_elem_of_In. auto. }
    apply list_elem_of_lookup in Hm as [i Hi].
    exists i. split; [eapply lookup_lt_Some, Hi|]. split.
    + rewrite C. apply lookup_app_l_Some, Hi.
    + intros j Hj. rewrite C in Hj.
      eapply NoDup_lookup; [exact N|exact Hj|]. apply lookup_app_l_Some, Hi.
  - intros ->. erewrite filter_ext; [apply filter_true_id|].
    intros a. apply startswith_empty.
Qed.

(** ** The interpreter loop *)

Lemma nonempty_app_r a b : nonempty b = true -> nonempty (a +:+ b) = true.
Proof. destruct a; [auto|reflexivity]. Qed.

Lemma os_getcwd_ok w :
  lookup_node (fs w) (cwd w) = Some Dir ->
  os_getcwd w = (inr ("/" +:+ join "/" (cwd w)), w).
Proof. intros H. unfold os_getcwd. rewrite H. reflexivity. Qed.

Lemma dispatch_not_exit host cmd handler :
  dict_get (DISPATCH host) cmd = Some handler ->
  String.eqb cmd "exit" || String.eqb cmd "quit" = false.
Proof.
  intros H. apply orb_false_intro; apply String.eqb_neq; intros ->;
    vm_compute in H; discriminate.
Qed.

(** A line whose tokenization fails: the exception leaves the round, and
    with it the loop. *)
Lemma loop_round_tokenize_error host w line e :
  lookup_node (fs w) (cwd w) = Some Dir ->
  is_blank line = false ->
  shlex.split line = inl e ->
  loop_round host (Line line) w = (Crashed e, [], (append_history_line line w).2).
Proof.
  intros Hc Hb Hs. unfold loop_round. rewrite (os_getcwd_ok _ Hc), Hb, Hs.
  reflexivity.
Qed.

(** C1: the code at a line with an unterminated quote.  The [ValueError]
    of the tokenizer is caught nowhere in the loop: the round ends the loop
    with that exception, the loop prints nothing about it, and the line
    that follows is never read. *)
Theorem tokenization_error_ends_loop :
  let '(st, out, unread, _) :=
    run_loop demo_host [Line "echo 'x"; Line "pwd"] demo_world in
  st = Crashed (ValueError "No closing quotation")
  /\ out = [] /\ unread = [Line "pwd"].
Proof. vm_compute. auto. Qed.

(** C8: an exception raised by the handler of a builtin is caught where
    the loop calls it.  The round prints [<command>: error: <message>] and
    goes back to reading: the loop carries on with the lines that follow,
    from the world the handler left. *)
Theorem builtin_exception_is_rendered (host : Host) (w w' : world)
    (line cmd : string) (args : list string) (rest : list input_event)
    (handler : list string -> M string) (e : exn) :
  lookup_node (fs w) (cwd w) = Some Dir ->
  is_blank line = false ->
  shlex.split line = inr (cmd :: args) ->
  dict_get (DISPATCH host) cmd = Some handler ->
  handler args (append_history_line line w).2 = (inl e, w') ->
  loop_round host (Line line) w
    = (Reading, [cmd +:+ ": error: " +:+ str_exn e], w')
  /\ run_loop host (Line line :: rest) w
     = (let '(st, out, unread, w'') := run_loop host rest w' in
        (st, (cmd +:+ ": error: " +:+ str_exn e) :: out, unread, w'')).
Proof.
  intros Hc Hb Hs Hd Hh.
  assert (loop_round host (Line line) w
          = (Reading, [cmd +:+ ": error: " +:+ str_exn e], w')) as R.
  { unfold loop_round. rewrite (os_getcwd_ok _ Hc), Hb, Hs.
    unfold execute. rewrite (dispatch_not_exit _ _ _ Hd), Hd.
    unfold run_builtin. rewrite Hh. unfold print_if.
    rewrite nonempty_app_r; [reflexivity|reflexivity]. }
  split; [exact R|].
  cbn [run_loop]. rewrite R.
  destruct (run_loop host rest w') as [[[st out] unread] w'']. reflexivity.
Qed.

Lemma builtin_exception_is_rendered_witness :
  loop_round demo_host (Line "sysinfo") demo_world
  = (Reading, ["sysinfo: error: no statistics"],
     (append_history_line "sysinfo" demo_world).2).
Proof.
  apply (builtin_exception_is_rendered demo_host demo_world
           (append_history_line "sysinfo" demo_world).2
           "sysinfo" "sysinfo" [] [] (cmd_sysinfo demo_host)
           (RuntimeError "no statistics"));
    reflexivity.
Defined.

(** ** Growing file trees *)

Lemma extends_refl f : extends f f.
Proof. intros k n H. exists n. split; [exact H|]. destruct n; simpl; auto. Qed.

Lemma same_kind_trans a b c : same_kind a b -> same_kind b c -> same_kind a c.
Proof. destruct a, b, c; simpl; congruence || tauto. Qed.

Lemma extends_trans f g h : extends f g -> extends g h -> extends f h.
Proof.
  intros A B k n H. destruct (A k n H) as (n1 & H1 & K1).
  destruct (B k n1 H1) as (n2 & H2 & K2). exists n2. eauto using same_kind_trans.
Qed.

Lemma extends_insert_new f q n : f !! q = None -> extends f (<[q := n]> f).
Proof.
  intros H k m Hk. exists m. split; [|destruct m; simpl; auto].
  rewrite lookup_insert_ne; [exact Hk|]. intros ->. congruence.
Qed.

Lemma extends_insert_file f q d d' :
  f !! q = Some (File d) -> extends f (<[q := File d']> f).
Proof.
  intros H k m Hk. destruct (decide (q = k)) as [->|Hne].
  - rewrite H in Hk. inversion Hk; subst. exists (File d').
    rewrite lookup_insert_eq. simpl. auto.
  - exists m. rewrite lookup_insert_ne by exact Hne.
    split; [exact Hk|destruct m; simpl; auto].
Qed.

(** A walk that succeeds is not disturbed by what is added to the tree,
    as long as nothing turns its end point into a link. *)
Lemma walk_extends f f' follow q :
  extends f f' ->
  (f !! q = None -> forall t, f' !! q <> Some (Symlink t)) ->
  forall n cur comps,
    walk n f follow cur comps = inr q -> walk n f' follow cur comps = inr q.
Proof.
  intros X Hq. refine (walk_induction f _ _ _).
  - intros n cur. rewrite !walk_nil. auto.
  - intros n cur c rest IH IHn. rewrite !walk_cons.
    destruct (String.eqb c ".."); [apply IH|].
    destruct (f !! (cur ++ [c])) as [m|] eqn:E.
    + destruct (X _ _ E) as (m' & E' & K). rewrite E'.
      destruct m as [d| |t], m' as [d'| |t']; simpl in K; try contradiction.
      * exact (fun H => H).
      * apply IH.
      * subst t'. destruct rest as [|c2 rest], follow;
          try exact (fun H => H);
          (destruct n as [|n]; [exact (fun H => H)|apply IHn; lia]).
    + destruct rest as [|c2 rest]; [|discriminate].
      intros H. inversion H; subst q.
      specialize (Hq E).
      destruct (f' !! (cur ++ [c])) as [[d'| |t']|];
        [reflexivity|apply walk_nil| |reflexivity].
      exfalso. exact (Hq t' eq_refl).
Qed.

Lemma lookup_node_extends f f' q :
  extends f f' -> lookup_node f q = Some Dir -> lookup_node f' q = Some Dir.
Proof.
  intros X. destruct q as [|c k]; [auto|]. simpl. intros H.
  destruct (X _ _ H) as ([| |] & H' & K); simpl in K; try contradiction. exact H'.
Qed.

Lemma resolve_extends w w' follow p q :
  extends (fs w) (fs w') -> cwd w' = cwd w ->
  (fs w !! q = None -> forall t, fs w' !! q <> Some (Symlink t)) ->
  resolve w follow p = inr q -> resolve w' follow p = inr q.
Proof.
  intros X C Hq. unfold resolve. rewrite C.
  destruct (is_abs p); [apply (walk_extends _ _ _ _ X Hq)|].
  destruct (lookup_node (fs w) (cwd w)) as [[| |]|] eqn:L; try discriminate.
  rewrite (lookup_node_extends _ _ _ X L). apply (walk_extends _ _ _ _ X Hq).
Qed.

(** ** The history file *)

Lemma app_assoc_s (a b c : string) : (a +:+ b) +:+ c = a +:+ b +:+ c.
Proof.
  induction a as [|x a IH]; [reflexivity|].
  change (String x ((a +:+ b) +:+ c) = String x (a +:+ b +:+ c)). f_equal. exact IH.
Qed.

Lemma app_cons_s x (a b : string) : String x a +:+ b = String x (a +:+ b).
Proof. reflexivity. Qed.

Lemma no_linebreak_cons c l :
  no_linebreak (String c l) = true ->
  Ascii.eqb c LF = false /\ Ascii.eqb c CR = false /\ no_linebreak l = true.
Proof.
  unfold no_linebreak. cbn [string_forallb]. intros H.
  apply andb_prop in H as [H1 H2]. apply andb_prop in H1 as [A B].
  apply negb_true_iff in A, B. auto.
Qed.

Lemma universal_newlines_line l rest :
  no_linebreak l = true ->
  universal_newlines (l +:+ NL +:+ rest) = l +:+ NL +:+ universal_newlines rest.
Proof.
  induction l as [|c l IH]; intros H.
  - reflexivity.
  - apply no_linebreak_cons in H as (A & B & C).
    rewrite !app_cons_s. cbn [universal_newlines]. rewrite B, (IH C). reflexivity.
Qed.

Lemma readlines_line l rest :
  no_linebreak l = true ->
  readlines (l +:+ NL +:+ rest) = (l +:+ NL) :: readlines rest.
Proof.
  induction l as [|c l IH]; intros H.
  - reflexivity.
  - apply no_linebreak_cons in H as (A & B & C).
    rewrite !app_cons_s. cbn [readlines]. rewrite A, (IH C). reflexivity.
Qed.

Lemma rstrip_newline_line l :
  no_linebreak l = true -> rstrip_newline (l +:+ NL) = l.
Proof.
  induction l as [|c l IH]; intros H.
  - reflexivity.
  - apply no_linebreak_cons in H as (A & B & C).
    rewrite app_cons_s. cbn [rstrip_newline]. rewrite A, (IH C). reflexivity.
Qed.

(** Lines written one per record are read back as they were. *)
Lemma read_back_lines ls :
  Forall (fun l => no_linebreak l = true) ls ->
  List.map rstrip_newline (readlines (universal_newlines (lines_text ls))) = ls.
Proof.
  induction 1 as [|l ls Hl Hls IH]; [reflexivity|].
  cbn [lines_text]. rewrite (universal_newlines_line _ _ Hl), (readlines_line _ _ Hl).
  cbn [List.map]. rewrite (rstrip_newline_line _ Hl), IH. reflexivity.
Qed.

Lemma lines_text_app a b : lines_text (a ++ b) = lines_text a +:+ lines_text b.
Proof.
  induction a as [|l a IH]; [reflexivity|].
  cbn [lines_text app]. rewrite IH, !app_assoc_s. reflexivity.
Qed.

Lemma lookup_node_file f q o :
  lookup_node f q = File <$> o -> lookup_node f q = f !! q.
Proof. destruct q; [destruct o; discriminate|reflexivity]. Qed.

Lemma append_history_line_at w q text line :
  history_at w q text ->
  history_at (append_history_line line w).2 q
             (Some (default "" text +:+ line +:+ NL)).
Proof.
  intros [R L]. pose proof (lookup_node_file _ _ _ L) as LN.
  assert (forall d, history_at (set_fs w (<[q := File d]> (fs w))) q (Some d)) as K.
  { intros d. split.
    - change (HISTORY_FILE (set_fs w (<[q:=File d]> (fs w)))) with (HISTORY_FILE w).
      apply (resolve_extends w); [| reflexivity | | exact R]; cbn [fs set_fs].
      + rewrite LN in L. destruct text as [t|]; simpl in L.
        * eapply extends_insert_file, L.
        * apply extends_insert_new, L.
      + intros _ t. rewrite lookup_insert_eq. discriminate.
    - cbn [fs set_fs]. destruct q; [destruct text; discriminate|].
      cbn [lookup_node]. rewrite lookup_insert_eq. reflexivity. }
  unfold append_history_line, write_file. mrun. rewrite R, L.
  destruct text as [t|]; simpl; apply K.
Qed.

Lemma append_lines_at ls : forall w q text,
  history_at w q text -> ls <> [] ->
  history_at (append_lines ls w) q (Some (default "" text +:+ lines_text ls)).
Proof.
  induction ls as [|l ls IH]; intros w q text H Hne; [congruence|].
  unfold append_lines. cbn [foldl]. fold (append_lines ls (append_history_line l w).2).
  pose proof (append_history_line_at w q text l H) as H1.
  destruct ls as [|l2 ls].
  - cbn [append_lines foldl lines_text]. rewrite retokenize.app_empty_r.
    unfold append_lines. cbn [foldl]. exact H1.
  - assert (l2 :: ls <> []) as Hne2 by discriminate.
    specialize (IH _ _ _ H1 Hne2). cbn [from_option] in IH. unfold id in IH.
    change (lines_text (l :: l2 :: ls)) with (l +:+ NL +:+ lines_text (l2 :: ls)).
    rewrite !app_assoc_s in IH. exact IH.
Qed.

Lemma cmd_history_at w q text :
  history_at w q (Some text) ->
  cmd_history [] w
  = (inr (join NL (numbered
       (List.map rstrip_newline (readlines (universal_newlines text))))), w).
Proof.
  intros [R L]. unfold cmd_history, read_file. mrun. unfold stat.
  rewrite R, L. reflexivity.
Qed.

(** C6: lines appended to the history are listed in the order of their
    appending, numbered from 1, after the lines the file held before (none
    for a fresh history); and a line of whitespace only leaves the world,
    the history file with it, as it was.  The history file must be
    writable: it resolves to a place that holds a file of whole lines, or
    nothing yet; a line has no line break in it. *)
Theorem history_lists_appended_lines (host : Host) (w : world)
    (q : list string) (olds ls : list string) :
  resolve w true (HISTORY_FILE w) = inr q ->
  (lookup_node (fs w) q = Some (File (lines_text olds))
   \/ (lookup_node (fs w) q = None /\ olds = [])) ->
  Forall (fun l => no_linebreak l = true) (olds ++ ls) ->
  ls <> [] ->
  cmd_history [] (append_lines ls w)
    = (inr (join NL (numbered (olds ++ ls))), append_lines ls w)
  /\ (forall line, is_blank line = true ->
        (loop_round host (Line line) w).2 = w).
Proof.
  intros R L F Hne. split.
  - assert (exists text, history_at w q text
                         /\ default "" text = lines_text olds) as (text & H & T).
    { destruct L as [L|[L ->]].
      - exists (Some (lines_text olds)). repeat split; auto.
      - exists None. repeat split; auto. }
    pose proof (append_lines_at ls w q text H Hne) as A. rewrite T in A.
    rewrite (cmd_history_at _ _ _ A), <- lines_text_app, (read_back_lines _ F).
    reflexivity.
  - intros line B. unfold loop_round, os_getcwd.
    destruct (lookup_node (fs w) (cwd w)) as [[| |]|]; try reflexivity.
    rewrite B. reflexivity.
Qed.

Lemma history_lists_appended_lines_witness :
  (cmd_history [] (append_lines ["ls"; "pwd"; "history"] demo_world)).1
  = inr (join NL ["1: ls"; "2: pwd"; "3: history"]).
Proof.
  destruct (history_lists_appended_lines demo_host demo_world
              ["home"; "u"; ".py_terminal_history"] []
              ["ls"; "pwd"; "history"]) as [A _].
  - reflexivity.
  - right. split; reflexivity.
  - repeat constructor.
  - discriminate.
  - rewrite A. reflexivity.
Defined.

(** ** Listing a directory *)

Lemma split_slash_no_slash s :
  string_forallb (fun a => negb (Ascii.eqb a "/")) s = true -> split_slash s = [s].
Proof.
  induction s as [|c r IH]; [reflexivity|].
  cbn [string_forallb split_slash]. intros H. apply andb_prop in H as [A B].
  apply negb_true_iff in A. rewrite A, (IH B). reflexivity.
Qed.

Lemma PurePath_valid_name name :
  valid_name name = true -> PurePath name = MkPath false [name].
Proof.
  unfold valid_name. intros H.
  apply andb_prop in H as [H S]. apply andb_prop in H as [H D2].
  apply andb_prop in H as [N D1].
  apply negb_true_iff in D1. unfold PurePath.
  rewrite (split_slash_no_slash _ S). cbn [List.filter]. unfold is_part.
  rewrite D1. destruct name as [|c r]; [discriminate|].
  cbn [string_forallb] in S. apply andb_prop in S as [S _].
  apply negb_true_iff in S.
  replace (startswith (String c r) "/") with false; [reflexivity|].
  unfold startswith. cbn [String.prefix].
  destruct (ascii_dec "/" c) as [<-|]; [discriminate S|reflexivity].
Qed.

Lemma Path_div_valid_name p name :
  valid_name name = true ->
  Path_div p name = MkPath (is_abs p) (parts p ++ [name]).
Proof. intros H. unfold Path_div. rewrite (PurePath_valid_name _ H). reflexivity. Qed.

Lemma valid_name_not_dotdot name : valid_name name = true -> String.eqb name ".." = false.
Proof.
  unfold valid_name. intros H. apply andb_prop in H as [H _].
  apply andb_prop in H as [_ H]. apply negb_true_iff in H. exact H.
Qed.

(** A walk that ends in a directory goes on from there: one more
    component is looked up in that directory, with the links still
    allowed. *)
Lemma walk_snoc f q c :
  lookup_node f q = Some Dir ->
  forall n cur comps,
    walk n f true cur comps = inr q ->
    exists m, forall follow,
      walk n f follow cur (comps ++ [c]) = walk m f follow q [c].
Proof.
  intros Hq. refine (walk_induction f _ _ _).
  - intros n cur. rewrite walk_nil. intros H. inversion H; subst. exists n. reflexivity.
  - intros n cur c0 rest IH IHn. rewrite walk_cons. intros H.
    assert (forall follow,
              walk n f follow cur ((c0 :: rest) ++ [c])
              = walk n f follow cur (c0 :: rest ++ [c])) as E0 by reflexivity.
    destruct (String.eqb c0 "..") eqn:Edd.
    { destruct (IH _ H) as [m Hm]. exists m. intros follow.
      rewrite E0, walk_cons, Edd. apply Hm. }
    destruct (f !! (cur ++ [c0])) as [[d| |t]|] eqn:E.
    + destruct rest; [|discriminate]. inversion H; subst q.
      rewrite lookup_node_snoc in Hq. congruence.
    + destruct (IH _ H) as [m Hm]. exists m. intros follow.
      rewrite E0, walk_cons, Edd, E. apply Hm.
    + assert (exists n', n = S n'
                /\ walk n' f true (if is_abs (PurePath t) then [] else cur)
                     (parts (PurePath t) ++ rest) = inr q) as (n' & -> & H').
      { destruct rest, n; try discriminate; eauto. }
      destruct (IHn n' _ _ (Nat.lt_succ_diag_r n') H') as [m Hm].
      exists m. intros follow. rewrite E0, walk_cons, Edd, E.
      rewrite <- Hm, <- app_assoc.
      destruct rest, follow; reflexivity.
    + destruct rest; [|discriminate]. inversion H; subst q.
      rewrite lookup_node_snoc in Hq. congruence.
Qed.

(** An entry [name] of the directory that [p] names, as [stat] and
    [lstat] see it through [p / name]. *)
Lemma stat_entry w p q name :
  stat w true p = inr (q, Dir) -> valid_name name = true ->
  exists m, forall follow,
    resolve w follow (Path_div p name) = walk m (fs w) follow q [name].
Proof.
  intros H V. rewrite (Path_div_valid_name _ _ V). unfold stat in H.
  destruct (resolve w true p) as [e|q'] eqn:R; [discriminate|].
  destruct (lookup_node (fs w) q') as [n|] eqn:L; [|discriminate].
  inversion H; subst q' n. revert R. unfold resolve. cbn [is_abs parts].
  destruct (is_abs p).
  - intros R. apply (walk_snoc _ _ name L _ _ _ R).
  - destruct (lookup_node (fs w) (cwd w)) as [[| |]|]; try discriminate.
    intros R. apply (walk_snoc _ _ name L _ _ _ R).
Qed.

Lemma mark_entry w path q name :
  stat w true (PurePath path) = inr (q, Dir) -> valid_name name = true ->
  mark w path name =
    match fs w !! (q ++ [name]) with
    | Some Dir => name +:+ "/"
    | Some (Symlink _) =>
        if is_dir w (Path_div (PurePath path) name) then name +:+ "/" else name +:+ "@"
    | _ => name
    end.
Proof.
  intros H V. destruct (stat_entry _ _ _ _ H V) as [m Hm].
  unfold mark, is_dir, is_symlink, stat. rewrite !Hm, !walk_cons.
  rewrite (valid_name_not_dotdot _ V).
  destruct (fs w !! (q ++ [name])) as [[d| |t]|] eqn:E.
  - rewrite lookup_node_snoc, E. reflexivity.
  - rewrite walk_nil, lookup_node_snoc, E. reflexivity.
  - rewrite lookup_node_snoc, E. reflexivity.
  - rewrite lookup_node_snoc, E. reflexivity.
Qed.

Lemma elem_of_children f q name :
  name ∈ children f q <-> is_Some (f !! (q ++ [name])).
Proof.
  unfold children. rewrite list_elem_of_omap. split.
  - intros ([k v] & Hin & Hc). apply elem_of_map_to_list in Hin.
    unfold child_of in Hc. cbn [fst] in Hc.
    destruct k as [|c k]; [discriminate|].
    destruct (decide (removelast (c :: k) = q)) as [Eq|]; [|discriminate].
    assert (List.last (c :: k) "" = name) as En by congruence.
    assert (q ++ [name] = c :: k) as ->; [|eauto].
    rewrite <- Eq, <- En. symmetry. apply app_removelast_last. discriminate.
  - intros [v Hv]. exists (q ++ [name], v). split.
    + apply elem_of_map_to_list, Hv.
    + unfold child_of. cbn [fst].
      destruct (q ++ [name]) as [|c k] eqn:E; [destruct q; discriminate|].
      rewrite <- E, removelast_last, last_last.
      destruct (decide (q = q)); [reflexivity|congruence].
Qed.

Lemma list_dir_ok w path q :
  nonempty path = true ->
  stat w true (PurePath path) = inr (q, Dir) ->
  list_dir path w
  = (inr (List.map (mark w path) (sorted (children (fs w) q))), w).
Proof.
  intros Hp H. unfold list_dir, os_listdir, os_path. rewrite Hp. mrun.
  rewrite H. reflexivity.
Qed.

(** C9, as stated: every symbolic link carries the link marker.  In the
    sample tree [ld] is a link to the directory [d]; listed, it carries
    the directory marker, and no entry [ld@] is there. *)
Lemma list_dir_link_marker_counterexample :
  ~ (forall w path q items name t,
       stat w true (PurePath path) = inr (q, Dir) ->
       list_dir path w = (inr items, w) ->
       fs w !! (q ++ [name]) = Some (Symlink t) ->
       (name +:+ "@") ∈ items).
Proof.
  intros H.
  specialize (H demo_world "." ["home"; "u"]
                ["a.txt"; "d/"; "existing.txt"; "ld/"; "lf@"] "ld" "d"
                eq_refl eq_refl eq_refl).
  apply list_elem_of_In in H. cbn [In] in H.
  repeat (destruct H as [H|H]; [discriminate H|]). exact H.
Qed.

(** C9, amended: the listing of a directory gives its entries in sorted
    order, each with its suffix: the directory marker for a directory and
    for a symbolic link that leads to a directory, the link marker for any
    other symbolic link, nothing for a file.  [ls] prints these one per
    line, and without an argument lists [.]. *)
Theorem list_dir_sorted_marked (w : world) (path : string) (q : list string) :
  nonempty path = true ->
  stat w true (PurePath path) = inr (q, Dir) ->
  (forall name, name ∈ children (fs w) q -> valid_name name = true) ->
  exists names,
    list_dir path w = (inr (List.map (mark w path) names), w)
    /\ cmd_ls [path] w = (inr (join NL (List.map (mark w path) names)), w)
    /\ cmd_ls [] w = cmd_ls ["."] w
    /\ names ≡ₚ children (fs w) q
    /\ StronglySorted String.le names
    /\ forall name, name ∈ names ->
         match fs w !! (q ++ [name]) with
         | Some Dir => mark w path name = name +:+ "/"
         | Some (File _) => mark w path name = name
         | Some (Symlink _) =>
             mark w path name =
               if is_dir w (Path_div (PurePath path) name)
               then name +:+ "/" else name +:+ "@"
         | None => False
         end.
Proof.
  intros Hp H V. exists (sorted (children (fs w) q)).
  pose proof (list_dir_ok _ _ _ Hp H) as L.
  split; [exact L|]. split.
  { unfold cmd_ls. mrun. rewrite L. reflexivity. }
  split; [reflexivity|]. split; [apply merge_sort_Permutation|].
  split; [apply (StronglySorted_merge_sort String.le)|].
  intros name Hn.
  assert (name ∈ children (fs w) q) as Hc.
  { unfold sorted in Hn. rewrite merge_sort_Permutation in Hn. exact Hn. }
  rewrite (mark_entry _ _ _ _ H (V _ Hc)).
  apply elem_of_children in Hc as [n Hc]. rewrite Hc.
  destruct n; reflexivity.
Qed.

Lemma list_dir_sorted_marked_witness :
  (cmd_ls ["."] demo_world).1
  = inr (join NL ["a.txt"; "d/"; "existing.txt"; "ld/"; "lf@"]).
Proof.
  destruct (list_dir_sorted_marked demo_world "." ["home"; "u"])
    as (names & _ & C & _).
  - reflexivity.
  - reflexivity.
  - assert (forallb valid_name (children (fs demo_world) ["home"; "u"]) = true)
      as F by (vm_compute; reflexivity).
    intros name Hn. apply list_elem_of_In in Hn.
    exact (proj1 (forallb_forall _ _) F name Hn).
  - reflexivity.
Defined.

(** ** Moving *)

(** C3: the code of [mv] at a source written with [~].  The destination
    goes through [expanduser], the source does not: [shutil.move] is
    handed the source as typed.  So [mv ~/a.txt ~/b.txt] looks for a
    directory named [~] in the working directory and fails, leaving
    [a.txt] in the home directory where it was, while [cp] on the same
    arguments expands both and makes the copy. *)
Theorem cmd_mv_source_not_expanded :
  (forall host w src dst,
     cmd_mv host [src; dst] w
     = match shutil_move host src (Path_str (PurePath (expanduser w dst))) w with
       | (inr _, w') => (inr "", w')
       | (inl e, w') => (inr ("mv: " +:+ src +:+ ": " +:+ str_exn e), w')
       end)
  /\ cmd_mv move_host ["~/a.txt"; "~/b.txt"] demo_world
     = (inr "mv: ~/a.txt: [Errno 2] No such file or directory: '~/a.txt'",
        demo_world)
  /\ (cmd_mv move_host ["/home/u/a.txt"; "~/b.txt"] demo_world).1 = inr ""
  /\ (cmd_cp move_host ["~/a.txt"; "~/b.txt"] demo_world).1 = inr ""
  /\ fs (cmd_cp move_host ["~/a.txt"; "~/b.txt"] demo_world).2
       !! ["home"; "u"; "b.txt"] = Some (File "alpha").
Proof.
  split.
  - intros host w src dst. unfold cmd_mv, mv_body. mrun.
    cbn [length Nat.ltb Nat.leb unpack_sources unpack_dest removelast List.last
         List.hd].
    destruct (shutil_move host src _ w) as [[e|[]] w']; reflexivity.
  - repeat split; vm_compute; reflexivity.
Qed.

(** ** Copying into a new directory *)

Lemma split_slash_parts s :
  Forall (fun c => string_forallb (fun a => negb (Ascii.eqb a "/")) c = true)
         (split_slash s).
Proof.
  induction s as [|c r IH]; [repeat constructor|].
  cbn [split_slash]. destruct (Ascii.eqb c "/") eqn:E.
  - constructor; [reflexivity|exact IH].
  - destruct (split_slash r) as [|h t].
    + repeat constructor. cbn [string_forallb]. rewrite E. reflexivity.
    + inversion IH; subst. constructor; [|assumption].
      cbn [string_forallb]. rewrite E. assumption.
Qed.

(** A component of a parsed path is a proper name, or [..]. *)
Lemma PurePath_parts s c :
  In c (parts (PurePath s)) -> String.eqb c ".." = false -> valid_name c = true.
Proof.
  unfold PurePath. cbn [parts]. rewrite filter_In. intros [Hin Hp] Hdd.
  pose proof (split_slash_parts s) as F. rewrite List.Forall_forall in F.
  specialize (F _ Hin). unfold is_part in Hp. apply andb_prop in Hp as [A B].
  unfold valid_name. rewrite F, Hdd, B.
  destruct c; [discriminate|reflexivity].
Qed.

Lemma wf_parent f cur :
  wf_fs f -> lookup_node f cur = Some Dir ->
  lookup_node f (removelast cur) = Some Dir.
Proof.
  intros W H. destruct cur as [|c k]; [reflexivity|].
  specialize (W _ _ H). unfold wf_entry in W.
  apply andb_prop in W as [_ W].
  destruct (lookup_node f (removelast (c :: k))) as [[| |]|]; try discriminate.
  reflexivity.
Qed.

Lemma last_cons_cons {A} (a b : A) l d : List.last (a :: b :: l) d = List.last (b :: l) d.
Proof. reflexivity. Qed.

Lemma last_app_ne {A} (l1 l2 : list A) d :
  l2 <> [] -> List.last (l1 ++ l2) d = List.last l2 d.
Proof.
  intros H. induction l1 as [|a l1 IH]; [reflexivity|].
  cbn [app]. destruct (l1 ++ l2) eqn:E; [|exact IH].
  destruct l1; [cbn [app] in E; congruence|discriminate].
Qed.

(** In a well-formed tree a walk that does not end on a directory ends
    with a name, not with [..]. *)
Lemma walk_nondir_last f follow q :
  wf_fs f -> lookup_node f q <> Some Dir ->
  forall n cur comps,
    lookup_node f cur = Some Dir ->
    walk n f follow cur comps = inr q ->
    comps <> [] /\ String.eqb (List.last comps "") ".." = false.
Proof.
  intros W Hq. refine (walk_induction f _ _ _).
  - intros n cur Hc. rewrite walk_nil. intros H. inversion H; subst. congruence.
  - intros n cur c rest IH IHn Hc. rewrite walk_cons. intros H.
    split; [discriminate|].
    assert (forall cur', lookup_node f cur' = Some Dir ->
              walk n f follow cur' rest = inr q ->
              String.eqb (List.last (c :: rest) "") ".." = false) as K.
    { intros cur' Hc' H'. destruct (IH cur' Hc' H') as [Hne L].
      destruct rest; [congruence|]. rewrite last_cons_cons. exact L. }
    destruct (String.eqb c "..") eqn:Edd.
    { apply (K _ (wf_parent _ _ W Hc) H). }
    destruct rest as [|c2 rest]; [exact Edd|].
    destruct (f !! (cur ++ [c])) as [[d'| |t]|] eqn:E; try discriminate H.
    + apply (K (cur ++ [c])); [rewrite lookup_node_snoc; exact E|exact H].
    + destruct n as [|n']; [discriminate H|].
      assert (lookup_node f (if is_abs (PurePath t) then [] else cur) = Some Dir)
        as Hc' by (destruct (is_abs (PurePath t)); [reflexivity|exact Hc]).
      destruct (IHn n' _ _ (Nat.lt_succ_diag_r n') Hc' H) as [_ L].
      rewrite last_cons_cons. rewrite last_app_ne in L by discriminate. exact L.
Qed.

Lemma resolve_nondir_last w follow p q :
  wf_fs (fs w) -> resolve w follow p = inr q ->
  lookup_node (fs w) q <> Some Dir ->
  parts p <> [] /\ String.eqb (List.last (parts p) "") ".." = false.
Proof.
  intros W R Hq. revert R. unfold resolve. destruct (is_abs p).
  - apply (walk_nondir_last _ _ _ W Hq). reflexivity.
  - destruct (lookup_node (fs w) (cwd w)) as [[| |]|] eqn:C; try discriminate.
    apply (walk_nondir_last _ _ _ W Hq). exact C.
Qed.

Lemma last_In {A} (l : list A) d : l <> [] -> In (List.last l d) l.
Proof.
  induction l as [|a l IH]; [congruence|]. intros _.
  destruct l as [|b l]; [left; reflexivity|].
  rewrite last_cons_cons. right. apply IH. discriminate.
Qed.

(** The last component of a path that leads to something other than a
    directory is a proper name. *)
Lemma Path_name_valid w follow s q :
  wf_fs (fs w) -> resolve w follow (PurePath s) = inr q ->
  lookup_node (fs w) q <> Some Dir ->
  valid_name (Path_name (PurePath s)) = true.
Proof.
  intros W R Hq. destruct (resolve_nondir_last _ _ _ _ W R Hq) as [Hne Hl].
  apply (PurePath_parts s); [apply last_In, Hne|exact Hl].
Qed.

(** The base name of a source that names a file is a proper name. *)
Lemma source_name_valid w s d :
  wf_fs (fs w) -> file_content w s = Some d -> valid_name (source_name w s) = true.
Proof.
  intros W. unfold file_content, source_name, stat.
  destruct (resolve w true (PurePath (expanduser w s))) as [e|q] eqn:R; [discriminate|].
  destruct (lookup_node (fs w) q) as [[d'| |t]|] eqn:L; try discriminate.
  intros _. apply (Path_name_valid w true _ q W R). congruence.
Qed.

Section cp_loop.
Context (w : world) (dp : Path) (D : list string).
Hypothesis W : wf_fs (fs w).
Hypothesis RD : resolve w true dp = inr D.
Hypothesis ND : lookup_node (fs w) D = None.

Lemma D_fresh : fs w !! D = None.
Proof. destruct D; [discriminate ND|exact ND]. Qed.

Lemma below_D_fresh name : fs w !! (D ++ [name]) = None.
Proof.
  destruct (fs w !! (D ++ [name])) as [n|] eqn:E; [|reflexivity].
  specialize (W _ _ E). unfold wf_entry in W.
  destruct (D ++ [name]) eqn:E2; [discriminate|]. rewrite <- E2 in W.
  rewrite removelast_last, ND in W. apply andb_prop in W as [_ W]. discriminate.
Qed.

Lemma subseteq_extends (f g : gmap (list string) node) : f ⊆ g -> extends f g.
Proof.
  intros S k n H. exists n. split; [|destruct n; simpl; auto].
  eapply lookup_weaken; eassumption.
Qed.

Lemma cp_inv_start : cp_inv (fs w) D (<[D := Dir]> (fs w)).
Proof.
  split; [apply insert_subseteq, D_fresh|]. split; [apply lookup_insert_eq|].
  intros name. left. rewrite lookup_insert_ne; [apply below_D_fresh|].
  intros E. apply (f_equal (@length _)) in E. rewrite length_app in E.
  simpl in E. lia.
Qed.

Lemma cp_inv_dest f :
  cp_inv (fs w) D f -> stat (set_fs w f) true dp = inr (D, Dir).
Proof.
  intros (S & HD & _). unfold stat.
  rewrite (resolve_extends w (set_fs w f) true dp D); cbn [fs set_fs].
  - destruct D; [discriminate ND|]. cbn [lookup_node]. rewrite HD. reflexivity.
  - apply subseteq_extends, S.
  - reflexivity.
  - intros _ t. rewrite HD. discriminate.
  - exact RD.
Qed.

Lemma cp_inv_source f s d :
  cp_inv (fs w) D f -> file_content w s = Some d ->
  exists qs, stat (set_fs w f) true (PurePath (expanduser w s)) = inr (qs, File d)
             /\ fs w !! qs = Some (File d).
Proof.
  intros (S & _ & _). unfold file_content, stat.
  destruct (resolve w true (PurePath (expanduser w s))) as [e|qs] eqn:R; [discriminate|].
  destruct (lookup_node (fs w) qs) as [[d'| |t]|] eqn:L; try discriminate.
  intros E; inversion E; subst d'. exists qs.
  assert (fs w !! qs = Some (File d)) as Hq by (destruct qs; [discriminate L|exact L]).
  split; [|exact Hq].
  rewrite (resolve_extends w (set_fs w f) true _ qs); cbn [fs set_fs].
  - destruct qs; [discriminate L|]. cbn [lookup_node].
    rewrite (lookup_weaken _ _ _ _ Hq S). reflexivity.
  - apply subseteq_extends, S.
  - reflexivity.
  - intros N. congruence.
  - exact R.
Qed.

(** Where [dest / name] leads while the loop runs: to the entry [name] of
    the new directory, a file or nothing yet. *)
Lemma cp_inv_target f name :
  cp_inv (fs w) D f -> valid_name name = true ->
  resolve (set_fs w f) true (Path_div dp name) = inr (D ++ [name])
  /\ is_dir (set_fs w f) (Path_div dp name) = false.
Proof.
  intros I V. destruct (stat_entry _ _ _ _ (cp_inv_dest _ I) V) as [m Hm].
  destruct I as (_ & _ & B).
  assert (resolve (set_fs w f) true (Path_div dp name) = inr (D ++ [name])) as R.
  { rewrite Hm, walk_cons, (valid_name_not_dotdot _ V). cbn [fs set_fs].
    destruct (B name) as [E|[d E]]; rewrite E; reflexivity. }
  split; [exact R|]. unfold is_dir, stat. rewrite R. cbn [fs set_fs].
  rewrite lookup_node_snoc.
  destruct (B name) as [E|[d E]]; rewrite E; reflexivity.
Qed.

Lemma snoc_ne (l : list string) a : l ++ [a] <> l.
Proof.
  intros E. apply (f_equal (@length _)) in E. rewrite length_app in E.
  simpl in E. lia.
Qed.

Lemma cp_inv_insert f name d :
  cp_inv (fs w) D f -> cp_inv (fs w) D (<[D ++ [name] := File d]> f).
Proof.
  intros (S & HD & B). split; [|split].
  - apply map_subseteq_spec. intros k v Hk.
    rewrite lookup_insert_ne.
    + eapply lookup_weaken; eassumption.
    + intros <-. rewrite below_D_fresh in Hk. discriminate.
  - rewrite lookup_insert_ne; [exact HD|apply snoc_ne].
  - intros name'. destruct (decide (name = name')) as [->|Hne].
    + right. exists d. apply lookup_insert_eq.
    + rewrite lookup_insert_ne; [apply B|].
      intros E. apply app_inj_tail in E as [_ E]. congruence.
Qed.

(** One round of the loop: the file is copied under its base name. *)
Lemma cp_body_step f s outs d :
  cp_inv (fs w) D f -> file_content w s = Some d ->
  cp_body dp s outs (set_fs w f)
  = (inr outs, set_fs w (<[D ++ [source_name w s] := File d]> f)).
Proof.
  intros I Hs.
  pose proof (source_name_valid _ _ _ W Hs) as V.
  destruct (cp_inv_source _ _ _ I Hs) as (qs & Ss & Hq).
  destruct (cp_inv_target _ _ I V) as (Rt & Dt).
  unfold cp_body. mrun.
  change (expanduser (set_fs w f) s) with (expanduser w s).
  fold (source_name w s).
  set (dst := Path_div dp (source_name w s)) in *.
  assert (stat (set_fs w f) true dst
          = match f !! (D ++ [source_name w s]) with
            | Some n => inr (D ++ [source_name w s], n)
            | None => inl ENOENT
            end) as Sd.
  { unfold stat. rewrite Rt. cbn [fs set_fs]. rewrite lookup_node_snoc.
    reflexivity. }
  assert (qs <> D ++ [source_name w s]) as Hne.
  { intros ->. rewrite below_D_fresh in Hq. discriminate. }
  unfold shutil_copy2. mrun. rewrite Dt. mstep.
  unfold samefile. rewrite Ss, Sd.
  unfold read_file, write_file. mrun.
  destruct I as (_ & _ & B).
  destruct (B (source_name w s)) as [E|[d0 E]]; rewrite E; mstep.
  - rewrite Ss. mstep. rewrite Rt. cbn [fs set_fs].
    rewrite lookup_node_snoc, E. reflexivity.
  - rewrite (bool_decide_eq_false_2 _ Hne). mstep.
    rewrite Ss. mstep. rewrite Rt. cbn [fs set_fs].
    rewrite lookup_node_snoc, E. reflexivity.
Qed.
End cp_loop.

(** The loop of [cp] over sources that all name files: no diagnostic,
    objects other than the copies are untouched, and each source is found
    under its base name unless a later source of the same name took its
    place. *)
Lemma cp_loop_spec w dp D :
  wf_fs (fs w) -> resolve w true dp = inr D -> lookup_node (fs w) D = None ->
  forall sources f outs,
    cp_inv (fs w) D f ->
    Forall (fun s => is_Some (file_content w s)) sources ->
    exists f',
      for_each (cp_body dp) sources outs (set_fs w f) = (inr outs, set_fs w f')
      /\ cp_inv (fs w) D f'
      /\ (forall k, (forall s, s ∈ sources -> k <> D ++ [source_name w s]) ->
            f' !! k = f !! k)
      /\ (forall i s,
            sources !! i = Some s ->
            (forall j s', i < j -> sources !! j = Some s' ->
                          source_name w s' <> source_name w s) ->
            f' !! (D ++ [source_name w s]) = File <$> file_content w s).
Proof.
  intros W RD ND. induction sources as [|s rest IH]; intros f outs I F.
  - exists f. split; [reflexivity|]. split; [exact I|]. split; [auto|].
    intros i s Hi. destruct i; discriminate.
  - inversion F as [|? ? [d Hd] F']; subst.
    pose proof (cp_body_step w dp D W RD ND f s outs d I Hd) as E.
    pose proof (cp_inv_insert w D W ND f (source_name w s) d I) as I1.
    destruct (IH _ outs I1 F') as (f' & L & I' & Fr & Pl).
    exists f'. split; [|split; [exact I'|split]].
    + cbn [for_each]. unfold bind at 1. rewrite E. exact L.
    + intros k Hk. rewrite Fr.
      * apply lookup_insert_ne. intros Ek. apply (Hk s); [left|auto].
      * intros s' Hs'. apply Hk. right. exact Hs'.
    + intros [|i] s0 Hi Hlater.
      * inversion Hi; subst s0. rewrite Fr.
        -- rewrite lookup_insert_eq, Hd. reflexivity.
        -- intros s' Hs' Ek. apply app_inj_tail in Ek as [_ Ek].
           apply list_elem_of_lookup in Hs' as [j Hj].
           apply (Hlater (S j) s'); [lia|exact Hj|auto].
      * apply (Pl i s0 Hi). intros j s' Hij Hj.
        apply (Hlater (S j) s'); [lia|exact Hj].
Qed.

Lemma Path_mkdir_rec_ok n p parents exist_ok w w' :
  os_mkdir (Path_str p) p w = (inr tt, w') ->
  Path_mkdir_rec n p parents exist_ok w = (inr tt, w').
Proof. intros H. destruct n; cbn [Path_mkdir_rec]; unfold catch; rewrite H; reflexivity. Qed.

(** C5: [cp] with more than one source and a destination that is not
    there yet (its parent directory is).  When every source names a file,
    the command prints nothing, the destination is a directory
    afterwards, each source is found in it under its base name with its
    content (the last of them, when several sources have the same base
    name), and what was in the tree before is still there. *)
Theorem cmd_cp_into_new_directory (host : Host) (w : world)
    (sources : list string) (dest : string) (D : list string) :
  wf_fs (fs w) ->
  1 < length sources ->
  resolve w false (PurePath (expanduser w dest)) = inr D ->
  lookup_node (fs w) D = None ->
  Forall (fun s => is_Some (file_content w s)) sources ->
  exists w',
    cmd_cp host (sources ++ [dest]) w = (inr "", w')
    /\ fs w' !! D = Some Dir
    /\ (forall i s,
          sources !! i = Some s ->
          (forall j s', i < j -> sources !! j = Some s' ->
                        source_name w s' <> source_name w s) ->
          fs w' !! (D ++ [source_name w s]) = File <$> file_content w s)
    /\ fs w ⊆ fs w'.
Proof.
  intros W Hlen R ND F.
  assert (fs w !! D = None) as ND' by (destruct D; [discriminate ND|exact ND]).
  assert (resolve w true (PurePath (expanduser w dest)) = inr D) as RD.
  { apply resolve_follow_ok; [exact R|]. intros t. rewrite ND'. discriminate. }
  destruct (cp_loop_spec w _ D W RD ND sources (<[D := Dir]> (fs w)) []
              (cp_inv_start w _ D W RD ND) F) as (f' & L & I' & _ & Pl).
  exists (set_fs w f'). cbn [fs set_fs].
  split; [|split; [apply I'|split; [exact Pl|apply I']]].
  unfold cmd_cp, unpack_sources, unpack_dest.
  rewrite removelast_last, last_last, length_app. cbn [length].
  replace (length sources + 1 <? 2) with false
    by (symmetry; apply Nat.ltb_ge; lia).
  replace (1 <? length sources) with true
    by (symmetry; apply Nat.ltb_lt; lia).
  mrun.
  assert (Path_mkdir (PurePath (expanduser w dest)) true true w
          = (inr tt, set_fs w (<[D := Dir]> (fs w)))) as ->.
  { apply Path_mkdir_rec_ok. unfold os_mkdir. rewrite R, ND. reflexivity. }
  rewrite L. reflexivity.
Qed.

Lemma demo_fs_wf : wf_fs (fs demo_world).
Proof.
  apply (bool_decide_unpack (wf_fs (fs demo_world))). vm_compute. exact I.
Qed.

Lemma cmd_cp_into_new_directory_witness :
  exists w',
    cmd_cp demo_host ["a.txt"; "d/x"; "destdir"] demo_world = (inr "", w')
    /\ fs w' !! ["home"; "u"; "destdir"] = Some Dir
    /\ fs w' !! ["home"; "u"; "destdir"; "a.txt"] = Some (File "alpha")
    /\ fs w' !! ["home"; "u"; "destdir"; "x"] = Some (File "x").
Proof.
  destruct (cmd_cp_into_new_directory demo_host demo_world
              ["a.txt"; "d/x"] "destdir" ["home"; "u"; "destdir"])
    as (w' & E & HD & Pl & _).
  - apply (bool_decide_unpack (wf_fs (fs demo_world))). vm_compute. exact I.
  - simpl. lia.
  - reflexivity.
  - reflexivity.
  - constructor; [eexists; reflexivity|].
    constructor; [eexists; reflexivity|]. constructor.
  - exists w'. split; [exact E|]. split; [exact HD|]. split.
    + apply (Pl 0 "a.txt" eq_refl).
      intros j s' Hj Hl. destruct j as [|[|j]].
      * lia.
      * inversion Hl; subst s'. vm_compute. discriminate.
      * discriminate Hl.
    + apply (Pl 1 "d/x" eq_refl).
      intros j s' Hj Hl. destruct j as [|[|j]].
      * lia.
      * lia.
      * discriminate Hl.
Defined.

(** * Further properties of the loop and of the builtins *)

(** ** Leaving the loop *)

Lemma not_blank_exit : is_blank "exit" = false /\ is_blank "quit" = false.
Proof. split; reflexivity. Qed.

(** [exit] and [quit] end the loop whatever follows them on the line: the
    round prints nothing, runs no command, and leaves the rest of the
    input unread.  The line itself is in the history by then. *)
Theorem exit_quit_end_loop (host : Host) (w : world) (line cmd : string)
    (args : list string) (rest : list input_event) :
  lookup_node (fs w) (cwd w) = Some Dir ->
  is_blank line = false ->
  shlex.split line = inr (cmd :: args) ->
  cmd = "exit" \/ cmd = "quit" ->
  run_loop host (Line line :: rest) w
  = (Exited, [], rest, (append_history_line line w).2).
Proof.
  intros Hc Hb Hs Hq. cbn [run_loop]. unfold loop_round.
  rewrite (os_getcwd_ok _ Hc), Hb, Hs. unfold execute.
  destruct Hq as [-> | ->]; reflexivity.
Qed.

Lemma exit_quit_end_loop_witness :
  run_loop demo_host [Line "exit now"; Line "pwd"] demo_world
  = (Exited, [], [Line "pwd"], (append_history_line "exit now" demo_world).2).
Proof.
  apply (exit_quit_end_loop demo_host demo_world "exit now" "exit" ["now"]);
    [reflexivity|reflexivity|reflexivity|left; reflexivity].
Defined.

(** The end of the input, or an interrupt at the prompt, ends the loop
    after one empty line; nothing in the world changes. *)
Theorem end_of_input_ends_loop (host : Host) (w : world)
    (rest : list input_event) :
  lookup_node (fs w) (cwd w) = Some Dir ->
  run_loop host [] w = (Exited, [""], [], w)
  /\ run_loop host (EOFError :: rest) w = (Exited, [""], rest, w)
  /\ run_loop host (KeyboardInterrupt :: rest) w = (Exited, [""], rest, w).
Proof.
  intros Hc. cbn [run_loop]. unfold loop_round.
  rewrite (os_getcwd_ok _ Hc). auto.
Qed.

Lemma end_of_input_ends_loop_witness :
  run_loop demo_host [] demo_world = (Exited, [""], [], demo_world).
Proof. apply (end_of_input_ends_loop demo_host demo_world []). reflexivity. Defined.

(** When the working directory is gone, the prompt cannot be made: the
    [FileNotFoundError] of [os.getcwd] is not among the exceptions the loop
    catches around its [input], so the next round ends the loop whatever
    the user would have typed. *)
Theorem removed_cwd_ends_loop (host : Host) (w : world) (ev : input_event)
    (rest : list input_event) :
  lookup_node (fs w) (cwd w) = None ->
  loop_round host ev w = (Crashed (OSError ENOENT None), [], w)
  /\ run_loop host (ev :: rest) w = (Crashed (OSError ENOENT None), [], rest, w).
Proof.
  intros Hc. assert (loop_round host ev w = (Crashed (OSError ENOENT None), [], w)) as R.
  { unfold loop_round, os_getcwd. rewrite Hc. reflexivity. }
  split; [exact R|]. cbn [run_loop]. rewrite R. reflexivity.
Qed.

Lemma removed_cwd_ends_loop_witness :
  loop_round demo_host (Line "pwd") (set_cwd demo_world ["home"; "u"; "gone"])
  = (Crashed (OSError ENOENT None), [], set_cwd demo_world ["home"; "u"; "gone"]).
Proof.
  apply (removed_cwd_ends_loop demo_host
           (set_cwd demo_world ["home"; "u"; "gone"]) (Line "pwd") []).
  reflexivity.
Defined.

(** A session that gets there: make a directory, enter it, remove it. *)
Example removed_cwd_session :
  let '(st, out, unread, _) :=
    run_loop demo_host
      [Line "mkdir t"; Line "cd t"; Line "rmdir ../t"; Line "pwd"; Line "ls"]
      demo_world in
  st = Crashed (OSError ENOENT None) /\ out = [] /\ unread = [Line "ls"].
Proof. vm_compute. auto. Qed.

(** [?] prints the help text, as [help] does; neither touches the world. *)
Theorem question_mark_is_help (host : Host) (w : world) (args : list string) :
  execute host ("?" :: args) w = (Reading, [help_text], w)
  /\ execute host ("help" :: args) w = (Reading, [help_text], w).
Proof. split; reflexivity. Qed.

(** ** External commands *)

(** [run_external_command] never raises, whatever the child process does:
    its output is returned; after a non-zero exit, the output of the
    child, or the exit code when there is none; a program that is not
    found gives [<name>: command not found]; any other failure is
    reported as text.  The world is the one the child left. *)
Theorem run_external_command_renders (host : Host) (cmd_tokens : list string)
    (w : world) :
  run_external_command host cmd_tokens w =
    match subprocess_check_output host cmd_tokens w with
    | (inr out, w') => (inr out, w')
    | (inl (CalledProcessError returncode output), w') =>
        (inr (if nonempty output then output
              else "Command exited with " +:+ str_int returncode), w')
    | (inl (OSError ENOENT f), w') =>
        (inr (List.hd "" cmd_tokens +:+ ": command not found"), w')
    | (inl e, w') => (inr ("Error running command: " +:+ str_exn e), w')
    end.
Proof.
  unfold run_external_command, catch, ret.
  destruct (subprocess_check_output host cmd_tokens w) as [[e|out] w']; [|reflexivity].
  destruct e as [[] f| | | |]; reflexivity.
Qed.

(** An unknown command is handed to the system, and the loop goes on
    whatever comes of it. *)
Theorem unknown_command_runs_external (host : Host) (w : world)
    (cmd : string) (args : list string) :
  cmd <> "exit" -> cmd <> "quit" -> cmd <> "?" ->
  dict_get (DISPATCH host) cmd = None ->
  exists res w',
    run_external_command host (cmd :: args) w = (inr res, w')
    /\ execute host (cmd :: args) w = (Reading, print_if res, w').
Proof.
  intros He Hq Hm Hd.
  assert (exists res w', run_external_command host (cmd :: args) w = (inr res, w'))
    as (res & w' & R).
  { rewrite run_external_command_renders.
    destruct (subprocess_check_output host (cmd :: args) w) as [[e|out] w'];
      [|eauto].
    destruct e as [[] f| | | |]; eauto. }
  exists res, w'. split; [exact R|].
  unfold execute. rewrite Hd, R.
  apply String.eqb_neq in He, Hq, Hm. rewrite He, Hq, Hm.
  assert (String.eqb cmd "help" = false) as ->; [|reflexivity].
  apply String.eqb_neq. intros ->. vm_compute in Hd. discriminate.
Qed.

Lemma unknown_command_runs_external_witness :
  execute demo_host ["git"; "status"] demo_world = (Reading, [], demo_world).
Proof.
  destruct (unknown_command_runs_external demo_host demo_world "git" ["status"])
    as (res & w' & R & E); try discriminate; try reflexivity.
Defined.

(** ** Builtins that never raise *)


(** A [try] whose [except Exception] clause returns a value returns one. *)
Lemma catch_total {A} (m : M A) (h : exn -> M A) :
  (forall e w, exists a w', h e w = (inr a, w')) ->
  forall w, exists a w', catch m h w = (inr a, w').
Proof.
  intros H w. unfold catch. destruct (m w) as [[e|a] w']; [apply H|eauto].
Qed.

Ltac returns :=
  repeat match goal with
         | |- exists a w', ret _ _ = _ => eexists _, _; reflexivity
         | |- forall _, _ => intro
         | |- exists a w', (if ?b then _ else _) _ = _ => destruct b
         | |- exists a w', catch _ _ _ = _ => apply catch_total
         end.







Lemma mv_body_total host dest s outs w :
  exists outs' w', mv_body host dest s outs w = (inr outs', w').
Proof. unfold mv_body. returns. Qed.

Lemma cp_body_total dest s outs w :
  exists outs' w', cp_body dest s outs w = (inr outs', w').
Proof. unfold cp_body. returns. Qed.






(** ** Operands, and the history that is not there *)

(** Without the operands it needs a builtin does nothing but say so:
    [mkdir], [rm], [rmdir], [cat] and [touch] with no argument, [mv] and
    [cp] with fewer than two. *)
Theorem missing_operand_is_refused (host : Host) (w : world) (args : list string) :
  length args < 2 ->
  cmd_mv host args w = (inr "mv: missing operand", w)
  /\ cmd_cp host args w = (inr "cp: missing operand", w)
  /\ cmd_mkdir [] w = (inr "mkdir: missing operand", w)
  /\ cmd_rm [] w = (inr "rm: missing operand", w)
  /\ cmd_rmdir [] w = (inr "rmdir: missing operand", w)
  /\ cmd_cat [] w = (inr "cat: missing operand", w)
  /\ cmd_touch [] w = (inr "touch: missing operand", w).
Proof.
  intros H. apply Nat.ltb_lt in H. unfold cmd_mv, cmd_cp. rewrite H.
  repeat split; reflexivity.
Qed.

Lemma missing_operand_is_refused_witness :
  cmd_mv demo_host ["a.txt"] demo_world = (inr "mv: missing operand", demo_world).
Proof.
  apply (missing_operand_is_refused demo_host demo_world ["a.txt"]). simpl. lia.
Defined.

(** A history file that is not there is no error: [history] answers
    [(no history)] and changes nothing. *)
Theorem history_without_file (w : world) (args : list string) :
  stat w true (HISTORY_FILE w) = inl ENOENT ->
  cmd_history args w = (inr "(no history)", w).
Proof.
  intros H. unfold cmd_history, read_file. mrun. rewrite H. reflexivity.
Qed.

Lemma history_without_file_witness :
  cmd_history [] demo_world = (inr "(no history)", demo_world).
Proof. apply history_without_file. reflexivity. Defined.

(** ** Changing directory *)

(** [cd] to a directory makes it the working directory, which [pwd] then
    prints as an absolute path; without an argument [cd] goes to the home
    directory; a target that is not a directory leaves the working
    directory where it was and gives a [cd:] diagnostic. *)
Theorem cd_then_pwd (w : world) (target : string) (q : list string) :
  nonempty (expanduser w target) = true ->
  stat w true (PurePath (expanduser w target)) = inr (q, Dir) ->
  cmd_cd [target] w = (inr "", set_cwd w q)
  /\ cmd_pwd [] (set_cwd w q) = (inr ("/" +:+ join "/" q), set_cwd w q)
  /\ cmd_cd [] w = cmd_cd [Path_str (Path_home w)] w.
Proof.
  intros Hn H. split; [|split].
  - unfold cmd_cd, os_chdir, os_path. mrun. rewrite Hn. mstep. rewrite H.
    reflexivity.
  - unfold cmd_pwd, os_getcwd. cbn [fs cwd set_cwd].
    unfold stat in H. destruct (resolve w true _); [discriminate|].
    destruct (lookup_node (fs w) l) eqn:L; [|discriminate].
    inversion H; subst. rewrite L. reflexivity.
  - reflexivity.
Qed.

Lemma cd_then_pwd_witness :
  cmd_cd ["~/ld"] demo_world = (inr "", set_cwd demo_world ["home"; "u"; "d"])
  /\ (cmd_pwd [] (set_cwd demo_world ["home"; "u"; "d"])).1 = inr "/home/u/d".
Proof.
  destruct (cd_then_pwd demo_world "~/ld" ["home"; "u"; "d"]) as (A & B & _);
    [reflexivity|reflexivity|].
  split; [exact A|]. rewrite B. reflexivity.
Defined.

Theorem cd_failure_keeps_cwd (w : world) (target : string) :
  (forall q, stat w true (PurePath (expanduser w target)) <> inr (q, Dir)) ->
  exists msg, cmd_cd [target] w = (inr ("cd: " +:+ msg), w).
Proof.
  intros H. unfold cmd_cd, os_chdir, os_path. mrun.
  destruct (nonempty (expanduser w target)); mstep; [|eauto].
  destruct (stat w true (PurePath (expanduser w target))) as [e|[q [d| |t]]] eqn:E;
    mstep; eauto.
  exfalso. apply (H q). reflexivity.
Qed.

Lemma cd_failure_keeps_cwd_witness :
  cmd_cd ["existing.txt"] demo_world
  = (inr "cd: [Errno 20] Not a directory: 'existing.txt'", demo_world).
Proof.
  destruct (cd_failure_keeps_cwd demo_world "existing.txt") as [msg E].
  - intros q. vm_compute. discriminate.
  - reflexivity.
Defined.

(** ** Making and removing directories *)

Lemma set_fs_same w : set_fs w (fs w) = w.
Proof. destruct w; reflexivity. Qed.

Lemma children_nil f q :
  (forall name, f !! (q ++ [name]) = None) -> children f q = [].
Proof.
  intros H. destruct (children f q) as [|x l] eqn:E; [reflexivity|].
  assert (x ∈ children f q) as Hx by (rewrite E; left).
  apply elem_of_children in Hx as [n Hn]. rewrite H in Hn. discriminate.
Qed.

Lemma os_mkdir_fresh w fname p D :
  resolve w false p = inr D -> lookup_node (fs w) D = None ->
  os_mkdir fname p w = (inr tt, set_fs w (<[D := Dir]> (fs w))).
Proof. intros R L. unfold os_mkdir. rewrite R, L. reflexivity. Qed.

Lemma os_mkdir_exists w fname p D n :
  resolve w false p = inr D -> lookup_node (fs w) D = Some n ->
  os_mkdir fname p w = (inl (OSError EEXIST (Some fname)), w).
Proof. intros R L. unfold os_mkdir. rewrite R, L. reflexivity. Qed.

(** [os.rmdir] on an empty directory with a proper name. *)
Lemma os_rmdir_empty w fname p D :
  valid_name (Path_name p) = true ->
  stat w false p = inr (D, Dir) -> children (fs w) D = [] ->
  os_rmdir fname p w = (inr tt, set_fs w (delete D (fs w))).
Proof.
  intros V S C. unfold os_rmdir. fold (Path_name p).
  rewrite (valid_name_not_dotdot _ V).
  replace (nonempty (Path_name p)) with true
    by (destruct (Path_name p); [discriminate V|reflexivity]).
  mrun. mstep. rewrite S. mstep. rewrite C. reflexivity.
Qed.

(** [mkdir] of a name that is free, in a directory that is there, makes
    the directory and prints nothing; [rmdir] of the same name then puts
    the tree back as it was. *)
Theorem mkdir_then_rmdir (w : world) (d : string) (D : list string) :
  wf_fs (fs w) ->
  resolve w false (PurePath (expanduser w d)) = inr D ->
  lookup_node (fs w) D = None ->
  cmd_mkdir [d] w = (inr "", set_fs w (<[D := Dir]> (fs w)))
  /\ cmd_rmdir [d] (set_fs w (<[D := Dir]> (fs w))) = (inr "", w).
Proof.
  intros W R L.
  assert (fs w !! D = None) as L' by (destruct D; [discriminate L|exact L]).
  split.
  - unfold cmd_mkdir, mkdir_body. cbn [for_each]. mrun. unfold Path_mkdir.
    rewrite (Path_mkdir_rec_ok _ _ _ _ _ _ (os_mkdir_fresh _ _ _ _ R L)).
    reflexivity.
  - unfold cmd_rmdir, rmdir_body. cbn [for_each]. mrun.
    change (expanduser (set_fs w (<[D:=Dir]> (fs w))) d) with (expanduser w d).
    rewrite (os_rmdir_empty _ _ _ D).
    + cbn [fs set_fs]. rewrite (delete_insert_id _ _ _ L').
      mstep. f_equal. exact (set_fs_same w).
    + apply (Path_name_valid w false _ D W R). congruence.
    + unfold stat.
      rewrite (resolve_extends w _ false _ D); cbn [fs set_fs].
      * destruct D; [discriminate L|]. cbn [lookup_node].
        rewrite lookup_insert_eq. reflexivity.
      * apply extends_insert_new, L'.
      * reflexivity.
      * intros _ t. rewrite lookup_insert_eq. discriminate.
      * exact R.
    + cbn [fs set_fs]. apply children_nil. intros name.
      rewrite lookup_insert_ne by (intros E; symmetry in E; revert E; apply snoc_ne).
      apply (below_D_fresh w D W L).
Qed.

Lemma mkdir_then_rmdir_witness :
  (cmd_mkdir ["new"] demo_world).1 = inr ""
  /\ cmd_rmdir ["new"] (cmd_mkdir ["new"] demo_world).2 = (inr "", demo_world).
Proof.
  destruct (mkdir_then_rmdir demo_world "new" ["home"; "u"; "new"]) as [A B].
  - apply (bool_decide_unpack (wf_fs (fs demo_world))). vm_compute. exact I.
  - reflexivity.
  - reflexivity.
  - rewrite A. split; [reflexivity|exact B].
Defined.

(** [mkdir] of a name that is taken, by whatever it is, changes nothing
    and says [File exists]. *)
Theorem mkdir_existing_is_refused (w : world) (d : string) (D : list string)
    (n : node) :
  resolve w false (PurePath (expanduser w d)) = inr D ->
  lookup_node (fs w) D = Some n ->
  cmd_mkdir [d] w
  = (inr ("mkdir: cannot create directory '" +:+ d +:+ "': File exists"), w).
Proof.
  intros R L. unfold cmd_mkdir, mkdir_body. cbn [for_each]. mrun. unfold Path_mkdir.
  pose proof (os_mkdir_exists _ (Path_str (PurePath (expanduser w d))) _ _ _ R L) as E.
  destruct (length (parts (PurePath (expanduser w d))));
    cbn [Path_mkdir_rec]; unfold catch; rewrite E; mrun; mstep; reflexivity.
Qed.

Lemma mkdir_existing_is_refused_witness :
  cmd_mkdir ["d"] demo_world
  = (inr "mkdir: cannot create directory 'd': File exists", demo_world).
Proof.
  apply (mkdir_existing_is_refused demo_world "d" ["home"; "u"; "d"] Dir);
    reflexivity.
Defined.

(** [rmdir] removes nothing but empty directories: a round either leaves
    the world as it was, with one diagnostic, or removes the one entry of
    a directory that had no entry of its own, silently. *)
Theorem rmdir_only_empty_directories (w : world) (d : string) (outs : list string) :
  (exists msg, rmdir_body d outs w = (inr (outs ++ ["rmdir: " +:+ d +:+ ": " +:+ msg]), w))
  \/ (exists D, stat w false (PurePath (expanduser w d)) = inr (D, Dir)
                /\ children (fs w) D = []
                /\ rmdir_body d outs w = (inr outs, set_fs w (delete D (fs w)))).
Proof.
  unfold rmdir_body, os_rmdir. mrun.
  destruct (negb (nonempty _)); mstep; [left; eauto|].
  destruct (String.eqb _ ".."); mstep; [left; eauto|].
  destruct (stat w false (PurePath (expanduser w d))) as [e|[D [x| |t]]] eqn:S;
    mstep; try (left; eauto; fail).
  destruct (children (fs w) D) eqn:C; mstep; [|left; eauto].
  right. exists D. auto.
Qed.

(** ** More on completion *)

Lemma scan_entry_prefix text acc f :
  Forall (fun c => startswith c text = true) acc.1 ->
  Forall (fun c => startswith c text = true) (scan_entry text acc f).1.
Proof.
  destruct acc as [cands seen]. cbn [fst]. intros H. unfold scan_entry.
  destruct (startswith f text) eqn:E; cbn [andb]; [|exact H].
  destruct (negb _); [|exact H]. cbn [fst].
  apply Forall_app. split; [exact H|]. constructor; [exact E|constructor].
Qed.

Lemma scan_dirs_prefix w text dirs : forall acc,
  Forall (fun c => startswith c text = true) acc.1 ->
  Forall (fun c => startswith c text = true) (foldl (scan_dir w text) acc dirs).1.
Proof.
  induction dirs as [|d dirs IH]; intros acc H; [exact H|].
  cbn [foldl]. apply IH. unfold scan_dir. destruct (nonempty d); [|exact H].
  destruct (os_listdir d w) as [[e|names] w']; [exact H|].
  clear IH. revert acc H. induction names as [|f names IHn]; intros acc H; [exact H|].
  cbn [foldl]. apply IHn, scan_entry_prefix, H.
Qed.

(** At command position every candidate starts with the text typed, and
    the candidates are offered at the states [0 .. n-1] for some [n]:
    from [n] on the completer answers [None], which ends the enumeration
    of readline. *)
Theorem completer_offers_matches (host : Host) (w : world) (text : string) :
  (forall state c, completer host w 0 text state = Some c ->
                   startswith c text = true)
  /\ exists n, forall state,
       is_Some (completer host w 0 text state) <-> state < n.
Proof.
  unfold completer. cbn [Nat.eqb]. split.
  - intros state c H.
    assert (Forall (fun c => startswith c text = true) (command_candidates w text)) as F.
    { unfold command_candidates. apply scan_dirs_prefix. cbn [fst].
      apply List.Forall_forall. intros x Hx. apply filter_In in Hx. tauto. }
    rewrite Forall_forall in F. apply F. eapply list_elem_of_lookup_2, H.
  - exists (length (command_candidates w text)). intros state.
    apply lookup_lt_is_Some.
Qed.


(** ** Quoting *)
Module quoting.
Import shlex shlex_facts retokenize.

(** Inside single quotes every character but the quote is taken as it
    is, the backslash too; the closing quote leaves the lexer inside a
    word that counts as quoted. *)
Lemma read_quoted t : forall tok es q0 rest,
  no_squote t = true ->
  read_loop (t +:+ String "'" rest) (st_quote "'") es q0 tok
  = read_loop rest st_word es true (tok +:+ t).
Proof.
  induction t as [|c t IH]; intros tok es q0 rest H.
  - rewrite app_empty_r. reflexivity.
  - unfold no_squote in H. cbn [string_forallb] in H.
    apply andb_prop in H as [Hc Ht]. apply negb_true_iff in Hc.
    change (String c t +:+ String "'" rest) with (String c (t +:+ String "'" rest)).
    cbn [read_loop]. rewrite Hc.
    replace (is_escape c && is_escapedquote "'") with false
      by (rewrite andb_false_r; reflexivity).
    rewrite (IH (push tok c) es true rest Ht), push_app. reflexivity.
Qed.

(** A quoted token is read back whole, empty or not. *)
Lemma read_squoted_token t rest :
  no_squote t = true ->
  read_token (Lexer st_space (squote t +:+ String " " rest))
    = inr (Some t, Lexer st_space rest)
  /\ read_token (Lexer st_space (squote t)) = inr (Some t, Lexer st_none "").
Proof.
  intros H. unfold read_token, squote. cbn [instream state]. split.
  - change (("'" +:+ t +:+ "'") +:+ String " " rest)
      with (String "'" ((t +:+ "'") +:+ String " " rest)).
    cbn [read_loop is_whitespace is_escape is_quote].
    replace ((t +:+ "'") +:+ String " " rest)
      with (t +:+ String "'" (String " " rest)).
    2:{ clear H. induction t as [|c t IH]; [reflexivity|].
        change (String c (t +:+ String "'" (String " " rest))
                = String c ((t +:+ "'") +:+ String " " rest)).
        f_equal. exact IH. }
    rewrite (read_quoted t "" st_space false _ H).
    change ("" +:+ t) with t. cbn [read_loop is_whitespace].
    rewrite orb_true_r. reflexivity.
  - change ("'" +:+ t +:+ "'") with (String "'" (t +:+ String "'" "")).
    cbn [read_loop is_whitespace is_escape is_quote].
    rewrite (read_quoted t "" st_space false _ H).
    change ("" +:+ t) with t. reflexivity.
Qed.

Lemma tokens_join_squoted ts :
  Forall (fun t => no_squote t = true) ts ->
  exists n, tokens n (Lexer st_space (join " " (List.map squote ts))) = Some (inr ts).
Proof.
  induction 1 as [|t ts Ht Hts [n IH]].
  - exists 1. reflexivity.
  - destruct ts as [|t2 ts].
    + exists 2. cbn [List.map join String.concat tokens].
      destruct (read_squoted_token t "" Ht) as [_ B]. rewrite B. reflexivity.
    + exists (S n).
      change (join " " (List.map squote (t :: t2 :: ts)))
        with (squote t +:+ String " " (join " " (List.map squote (t2 :: ts)))).
      cbn [tokens].
      destruct (read_squoted_token t (join " " (List.map squote (t2 :: ts))) Ht)
        as [A _].
      rewrite A, IH. reflexivity.
Qed.
End quoting.

(** Single quotes carry any text through the tokenizer: writing each of a
    list of tokens that hold no single quote between single quotes, and
    joining them with spaces, gives a line that tokenizes to exactly these
    tokens, whatever blanks, double quotes or backslashes they hold, and
    the empty ones too. *)
Theorem split_single_quoted (ts : list string) :
  Forall (fun t => no_squote t = true) ts ->
  shlex.split (join " " (List.map squote ts)) = inr ts.
Proof.
  intros H. destruct (quoting.tokens_join_squoted ts H) as [n Hn].
  eapply shlex_facts.split_from_tokens, Hn.
Qed.

Lemma split_single_quoted_witness :
  shlex.split "'a b' '' 'c\d'" = inr ["a b"; ""; "c\d"].
Proof.
  apply (split_single_quoted ["a b"; ""; "c\d"]). repeat constructor.
Defined.

(** ** Copying and moving: single files, and destinations that are taken *)




Lemma shutil_copy2_ok w src dst qs d qd :
  stat w true src = inr (qs, File d) ->
  is_dir w dst = false ->
  resolve w true dst = inr qd ->
  (lookup_node (fs w) qd = None
   \/ exists d0, lookup_node (fs w) qd = Some (File d0) /\ qs <> qd) ->
  shutil_copy2 src dst w = (inr tt, set_fs w (<[qd := File d]> (fs w))).
Proof.
  intros Ss Hd Rd L. unfold shutil_copy2. mrun. rewrite Hd. mstep.
  unfold samefile, read_file, write_file. mrun. rewrite Ss.
  unfold stat at 1. rewrite Rd.
  destruct L as [L|(d0 & L & Hne)]; rewrite L; mstep.
  - rewrite Ss. mstep. rewrite Rd, L. reflexivity.
  - rewrite (bool_decide_eq_false_2 _ Hne). mstep. rewrite Ss. mstep.
    rewrite Rd, L. reflexivity.
Qed.

Lemma file_content_stat w s d :
  file_content w s = Some d ->
  exists qs, stat w true (PurePath (expanduser w s)) = inr (qs, File d).
Proof.
  unfold file_content.
  destruct (stat w true (PurePath (expanduser w s))) as [e|[qs [d'| |t]]];
    try discriminate.
  intros E; inversion E; subst. eauto.
Qed.

(** [cp] of one file into a directory that is there puts the copy in it
    under the base name of the source; to a name that is free, it makes
    the copy under that name.  The source is untouched in both cases. *)
Theorem cp_single_file (host : Host) (w : world) (s dest : string)
    (d : string) (q : list string) :
  wf_fs (fs w) ->
  file_content w s = Some d ->
  (stat w true (PurePath (expanduser w dest)) = inr (q, Dir) ->
   fs w !! (q ++ [source_name w s]) = None ->
   cmd_cp host [s; dest] w
   = (inr "", set_fs w (<[q ++ [source_name w s] := File d]> (fs w))))
  /\ (resolve w true (PurePath (expanduser w dest)) = inr q ->
      lookup_node (fs w) q = None ->
      cmd_cp host [s; dest] w = (inr "", set_fs w (<[q := File d]> (fs w)))).
Proof.
  intros W Hs. destruct (file_content_stat _ _ _ Hs) as [qs Ss].
  assert (is_dir w (PurePath (expanduser w s)) = false) as Hsd
    by (unfold is_dir; rewrite Ss; reflexivity).
  split.
  - intros Sd N. pose proof (source_name_valid _ _ _ W Hs) as V.
    assert (is_dir w (PurePath (expanduser w dest)) = true) as Hdd
      by (unfold is_dir; rewrite Sd; reflexivity).
    destruct (stat_entry _ _ _ _ Sd V) as [m Hm].
    assert (resolve w true (Path_div (PurePath (expanduser w dest)) (source_name w s))
            = inr (q ++ [source_name w s])) as Rt.
    { rewrite Hm, walk_cons, (valid_name_not_dotdot _ V), N. reflexivity. }
    unfold cmd_cp, cp_single. cbn [length Nat.ltb Nat.leb unpack_sources
      unpack_dest removelast List.last List.hd]. mrun. rewrite Hdd. mstep.
    rewrite Hsd. mstep. fold (source_name w s).
    rewrite (shutil_copy2_ok _ _ _ _ _ (q ++ [source_name w s]) Ss);
      [reflexivity| |exact Rt|].
    + unfold is_dir, stat. rewrite Rt, lookup_node_snoc, N. reflexivity.
    + left. rewrite lookup_node_snoc. exact N.
  - intros Rd N.
    assert (is_dir w (PurePath (expanduser w dest)) = false) as Hdd
      by (unfold is_dir, stat; rewrite Rd, N; reflexivity).
    unfold cmd_cp, cp_single. cbn [length Nat.ltb Nat.leb unpack_sources
      unpack_dest removelast List.last List.hd]. mrun. rewrite Hdd. mstep.
    rewrite Hsd. mstep.
    rewrite (shutil_copy2_ok _ _ _ _ _ _ Ss Hdd Rd); [reflexivity|auto].
Qed.

Lemma cp_single_file_witness :
  cmd_cp demo_host ["a.txt"; "d"] demo_world
  = (inr "", set_fs demo_world
               (<[["home"; "u"; "d"; "a.txt"] := File "alpha"]> (fs demo_world))).
Proof.
  apply (cp_single_file demo_host demo_world "a.txt" "d" "alpha" ["home"; "u"; "d"]).
  - apply (bool_decide_unpack (wf_fs (fs demo_world))). vm_compute. exact I.
  - reflexivity.
  - reflexivity.
  - reflexivity.
Defined.



(** ** Builtins that only read *)

Lemma keeps_ret {A} (a : A) : keeps (ret a).
Proof. intros w. reflexivity. Qed.

Lemma keeps_raise {A} (e : exn) : keeps (@raise A e).
Proof. intros w. reflexivity. Qed.

Lemma keeps_bind {A B} (m : M A) (k : A -> M B) :
  keeps m -> (forall a, keeps (k a)) -> keeps (bind m k).
Proof.
  intros Hm Hk w. unfold bind. specialize (Hm w).
  destruct (m w) as [[e|a] w']; cbn [snd] in *; subst w'; [reflexivity|apply Hk].
Qed.

Lemma keeps_catch {A} (m : M A) (h : exn -> M A) :
  keeps m -> (forall e, keeps (h e)) -> keeps (catch m h).
Proof.
  intros Hm Hh w. unfold catch. specialize (Hm w).
  destruct (m w) as [[e|a] w']; cbn [snd] in *; subst w'; [apply Hh|reflexivity].
Qed.

Lemma keeps_for_each {A} (body : A -> list string -> M (list string)) items :
  (forall x outs, keeps (body x outs)) -> forall outs, keeps (for_each body items outs).
Proof.
  intros Hb. induction items as [|x items IH]; intros outs; cbn [for_each].
  - apply keeps_ret.
  - apply keeps_bind; [apply Hb|exact IH].
Qed.

Lemma keeps_get_world : keeps get_world.
Proof. intros w. reflexivity. Qed.

Lemma keeps_os_stat follow fname p : keeps (os_stat follow fname p).
Proof. intros w. unfold os_stat. destruct (stat w follow p); reflexivity. Qed.

Lemma keeps_os_path s : keeps (os_path s).
Proof. unfold os_path. destruct (nonempty s); [apply keeps_ret|apply keeps_raise]. Qed.

Ltac keeping :=
  repeat first
    [ apply keeps_ret | apply keeps_raise | apply keeps_get_world
    | apply keeps_os_stat | apply keeps_os_path
    | apply keeps_bind | apply keeps_catch
    | match goal with
      | |- forall _, _ => intro
      | |- keeps (oserror _ _) => apply keeps_raise
      | |- keeps (let (_, _) := ?x in _) => destruct x
      | |- keeps (match ?x with _ => _ end) => destruct x
      end ].

Lemma keeps_read_file fname p : keeps (read_file fname p).
Proof. unfold read_file. keeping. Qed.

Lemma keeps_os_listdir s : keeps (os_listdir s).
Proof. unfold os_listdir. keeping. Qed.

Lemma keeps_os_getcwd : keeps os_getcwd.
Proof.
  intros w. unfold os_getcwd.
  destruct (lookup_node (fs w) (cwd w)) as [[| |]|]; reflexivity.
Qed.

Lemma keeps_operands {A} cmd (body : A -> list string -> M (list string)) args :
  (forall x outs, keeps (body x outs)) ->
  keeps (match args with
         | [] => ret (cmd +:+ ": missing operand")
         | _ => let* outs := for_each body args [] in ret (join NL outs)
         end).
Proof.
  intros B. destruct args; [apply keeps_ret|].
  apply keeps_bind; [apply keeps_for_each, B|intro; apply keeps_ret].
Qed.

(** [ls], [pwd], [cat], [help] and [history] only read: whatever their
    arguments, and whether they print a result or an error, the file
    tree and the working directory are the same afterwards. *)
Theorem reading_builtins_keep_world (host : Host) (cmd : string)
    (handler : list string -> M string) (args : list string) (w : world) :
  dict_get (DISPATCH host) cmd = Some handler ->
  cmd ∈ ["ls"; "pwd"; "cat"; "help"; "history"] ->
  (handler args w).2 = w.
Proof.
  intros Hd Hin. apply list_elem_of_In in Hin. cbn [In] in Hin.
  revert w. change (keeps (handler args)).
  destruct Hin as [<-|[<-|[<-|[<-|[<-|[]]]]]].
  - assert (Some handler = Some cmd_ls) as E by (rewrite <- Hd; reflexivity).
    injection E as ->. unfold cmd_ls, list_dir. keeping; apply keeps_os_listdir.
  - assert (Some handler = Some cmd_pwd) as E by (rewrite <- Hd; reflexivity).
    injection E as ->. apply keeps_os_getcwd.
  - assert (Some handler = Some cmd_cat) as E by (rewrite <- Hd; reflexivity).
    injection E as ->. apply (keeps_operands "cat"). intros x outs.
    unfold cat_body. keeping; apply keeps_read_file.
  - assert (Some handler = Some cmd_help) as E by (rewrite <- Hd; reflexivity).
    injection E as ->. apply keeps_ret.
  - assert (Some handler = Some cmd_history) as E by (rewrite <- Hd; reflexivity).
    injection E as ->. unfold cmd_history. keeping; apply keeps_read_file.
Qed.

Lemma reading_builtins_keep_world_witness :
  (cmd_cat ["a.txt"; "d"] demo_world).2 = demo_world.
Proof.
  apply (reading_builtins_keep_world demo_host "cat" cmd_cat ["a.txt"; "d"] demo_world).
  - reflexivity.
  - apply list_elem_of_In. cbn [In]. auto.
Defined.




(** ** [touch] *)

Lemma Path_mkdir_present w p (parents : bool) :
  is_dir w p = true -> Path_mkdir p parents true w = (inr tt, w).
Proof.
  intros Hd.
  assert (exists D n, resolve w false p = inr D /\ lookup_node (fs w) D = Some n)
    as (D & n & R & L).
  { unfold is_dir in Hd.
    destruct (stat w false p) as [e|[D n]] eqn:S.
    - rewrite (stat_follow_err _ _ _ S) in Hd. discriminate.
    - unfold stat in S. destruct (resolve w false p) as [e|D'] eqn:R; [discriminate|].
      destruct (lookup_node (fs w) D') as [n'|] eqn:L; [|discriminate].
      eauto. }
  unfold Path_mkdir.
  pose proof (os_mkdir_exists _ (Path_str p) _ _ _ R L) as E.
  destruct (length (parts p)); cbn [Path_mkdir_rec]; unfold catch; rewrite E;
    cbn [is_FileNotFoundError is_OSError]; mrun; rewrite Hd; reflexivity.
Qed.

(** [touch] of a name whose directory is there: when the name exists
    (through links too) nothing in the tree changes, and otherwise an
    empty file is made at the place the name resolves to.  Nothing is
    printed. *)
Theorem touch_creates_or_keeps (w : world) (t : string) :
  is_dir w (Path_parent (PurePath (expanduser w t))) = true ->
  (exists_ w (PurePath (expanduser w t)) = true -> cmd_touch [t] w = (inr "", w))
  /\ (forall q,
        resolve w true (PurePath (expanduser w t)) = inr q ->
        lookup_node (fs w) q = None ->
        cmd_touch [t] w = (inr "", set_fs w (<[q := File ""]> (fs w)))).
Proof.
  intros Hp. pose proof (Path_mkdir_present _ _ true Hp) as E.
  split.
  - intros He. unfold cmd_touch. cbn [for_each]. unfold touch_body. mrun.
    rewrite E. mstep. rewrite He. reflexivity.
  - intros q R L.
    assert (exists_ w (PurePath (expanduser w t)) = false) as He
      by (unfold exists_, stat; rewrite R, L; reflexivity).
    unfold cmd_touch. cbn [for_each]. unfold touch_body. mrun.
    rewrite E. mstep. rewrite He. mstep. unfold write_file. rewrite R, L.
    reflexivity.
Qed.

Lemma touch_creates_or_keeps_witness :
  cmd_touch ["a.txt"] demo_world = (inr "", demo_world)
  /\ cmd_touch ["d/new"] demo_world
     = (inr "", set_fs demo_world
                  (<[["home"; "u"; "d"; "new"] := File ""]> (fs demo_world))).
Proof.
  split.
  - apply (touch_creates_or_keeps demo_world "a.txt"); reflexivity.
  - apply (touch_creates_or_keeps demo_world "d/new"); reflexivity.
Defined.

(** ** [mkdir] with missing parents *)

Lemma add_dirs_snoc f D l b :
  add_dirs f D (l ++ [b]) = <[D ++ l ++ [b] := Dir]> (add_dirs f D l).
Proof.
  revert f D. induction l as [|a l IH]; intros f D; cbn [add_dirs app].
  - reflexivity.
  - rewrite IH, <- app_assoc. reflexivity.
Qed.

Lemma add_dirs_other f D l k :
  (forall j, 1 <= j <= length l -> k <> D ++ take j l) ->
  add_dirs f D l !! k = f !! k.
Proof.
  revert f D. induction l as [|a l IH]; intros f D H; cbn [add_dirs]; [reflexivity|].
  rewrite IH.
  - apply lookup_insert_ne. intros E. apply (H 1); [simpl; lia|].
    symmetry. exact E.
  - intros j Hj E. apply (H (S j)); [simpl; lia|]. rewrite E.
    cbn [take]. rewrite <- app_assoc. reflexivity.
Qed.

Lemma add_dirs_made f D l j :
  1 <= j <= length l -> add_dirs f D l !! (D ++ take j l) = Some Dir.
Proof.
  revert f D j. induction l as [|a l IH]; intros f D j Hj; cbn [length] in Hj; [lia|].
  cbn [add_dirs]. destruct j as [|[|j]]; [lia| |].
  - cbn [take]. rewrite add_dirs_other; [apply lookup_insert_eq|].
    intros i Hi E. apply (f_equal (@length _)) in E.
    rewrite !length_app, length_take in E. simpl in E. lia.
  - replace (D ++ take (S (S j)) (a :: l)) with ((D ++ [a]) ++ take (S j) l)
      by (rewrite <- app_assoc; reflexivity).
    apply IH. lia.
Qed.

(** In a well-formed tree nothing lies below a name that is free. *)
Lemma fresh_below f D a rest :
  wf_fs f -> f !! (D ++ [a]) = None -> f !! (D ++ a :: rest) = None.
Proof.
  intros W N. induction rest as [|c r IH] using rev_ind; [exact N|].
  destruct (f !! (D ++ a :: r ++ [c])) as [n|] eqn:E; [|reflexivity].
  specialize (W _ _ E). unfold wf_entry in W.
  replace (D ++ a :: r ++ [c]) with ((D ++ a :: r) ++ [c]) in W
    by (rewrite <- app_assoc; reflexivity).
  destruct ((D ++ a :: r) ++ [c]) eqn:E2; [discriminate|]. rewrite <- E2 in W.
  rewrite removelast_last in W. apply andb_prop in W as [_ W].
  destruct (D ++ a :: r) eqn:E3; [destruct D; discriminate|].
  rewrite <- E3 in *. cbn [lookup_node] in W.
  replace (lookup_node f (D ++ a :: r)) with (f !! (D ++ a :: r)) in W
    by (rewrite E3; reflexivity).
  rewrite IH in W. discriminate.
Qed.

(** A walk down a chain of directories that ends on a free name. *)
Lemma walk_chain f m follow names :
  forall D,
    Forall (fun c => valid_name c = true) names -> names <> [] ->
    (forall j, 1 <= j < length names -> f !! (D ++ take j names) = Some Dir) ->
    f !! (D ++ names) = None ->
    walk m f follow D names = inr (D ++ names).
Proof.
  induction names as [|c rest IH]; intros D V Hne Hd Hn; [congruence|].
  rewrite walk_cons. inversion V as [|? ? Vc Vr]; subst.
  rewrite (valid_name_not_dotdot _ Vc).
  destruct rest as [|c2 rest].
  - rewrite Hn. reflexivity.
  - pose proof (Hd 1 ltac:(simpl; lia)) as H1. cbn [take] in H1. rewrite H1.
    rewrite IH; [rewrite <- app_assoc; reflexivity|assumption|discriminate| |].
    + intros j Hj. specialize (Hd (S j)). cbn [take] in Hd.
      rewrite <- app_assoc. apply Hd. simpl in *. lia.
    + rewrite <- app_assoc. exact Hn.
Qed.

(** A walk that ends in a directory goes on from there with the
    components that follow. *)
Lemma walk_app f q more :
  more <> [] -> lookup_node f q = Some Dir ->
  forall n cur comps,
    walk n f true cur comps = inr q ->
    exists m, forall follow,
      walk n f follow cur (comps ++ more) = walk m f follow q more.
Proof.
  intros Hm Hq. refine (walk_induction f _ _ _).
  - intros n cur. rewrite walk_nil. intros H. inversion H; subst. exists n. reflexivity.
  - intros n cur c0 rest IH IHn. rewrite walk_cons. intros H.
    assert (forall follow,
              walk n f follow cur ((c0 :: rest) ++ more)
              = walk n f follow cur (c0 :: rest ++ more)) as E0 by reflexivity.
    destruct (String.eqb c0 "..") eqn:Edd.
    { destruct (IH _ H) as [m Hm']. exists m. intros follow.
      rewrite E0, walk_cons, Edd. apply Hm'. }
    destruct (f !! (cur ++ [c0])) as [[d| |t]|] eqn:E.
    + destruct rest; [|discriminate]. inversion H; subst q.
      rewrite lookup_node_snoc in Hq. congruence.
    + destruct (IH _ H) as [m Hm']. exists m. intros follow.
      rewrite E0, walk_cons, Edd, E. apply Hm'.
    + assert (exists n', n = S n'
                /\ walk n' f true (if is_abs (PurePath t) then [] else cur)
                     (parts (PurePath t) ++ rest) = inr q) as (n' & -> & H').
      { destruct rest, n; try discriminate; eauto. }
      destruct (IHn n' _ _ (Nat.lt_succ_diag_r n') H') as [m Hm'].
      exists m. intros follow. rewrite E0, walk_cons, Edd, E.
      rewrite <- Hm', <- app_assoc.
      destruct rest, more, follow; try reflexivity; congruence.
    + destruct rest; [|discriminate]. inversion H; subst q.
      rewrite lookup_node_snoc in Hq. congruence.
Qed.

(** Resolution is a walk from the root or from the working directory,
    and stays one when the tree grows. *)
Lemma resolve_as_walk w abs ps D :
  resolve w true (MkPath abs ps) = inr D ->
  exists start,
    walk MAXSYMLINKS (fs w) true start ps = inr D
    /\ forall f' follow comps,
         extends (fs w) f' ->
         resolve (set_fs w f') follow (MkPath abs comps)
         = walk MAXSYMLINKS f' follow start comps.
Proof.
  unfold resolve. cbn [is_abs parts fs set_fs cwd]. destruct abs.
  - intros H. exists []. split; [exact H|reflexivity].
  - destruct (lookup_node (fs w) (cwd w)) as [[| |]|] eqn:L; try discriminate.
    intros H. exists (cwd w). split; [exact H|].
    intros f' follow comps X. rewrite (lookup_node_extends _ _ _ X L). reflexivity.
Qed.

Section mkdir_chain.
Context (w : world) (abs : bool) (ps D : list string).
Hypothesis W : wf_fs (fs w).
Hypothesis SD : stat w true (MkPath abs ps) = inr (D, Dir).

Lemma chain_fresh names j :
  fs w !! (D ++ take 1 names) = None -> 1 <= j -> fs w !! (D ++ take j names) = None.
Proof.
  intros N Hj. destruct names as [|a l]; [destruct j; exact N|].
  destruct j as [|j]; [lia|]. cbn [take] in *. apply fresh_below; assumption.
Qed.

Lemma add_dirs_subseteq names :
  fs w !! (D ++ take 1 names) = None -> fs w ⊆ add_dirs (fs w) D names.
Proof.
  intros N. apply map_subseteq_spec. intros k n Hk.
  rewrite add_dirs_other; [exact Hk|].
  intros j Hj ->. rewrite (chain_fresh names j N) in Hk by lia. discriminate.
Qed.

Lemma Path_mkdir_rec_chain names :
  names <> [] -> Forall (fun c => valid_name c = true) names ->
  fs w !! (D ++ take 1 names) = None ->
  forall fuel exist_ok, length names <= S fuel ->
    Path_mkdir_rec fuel (MkPath abs (ps ++ names)) true exist_ok w
    = (inr tt, set_fs w (add_dirs (fs w) D names)).
Proof.
  assert (resolve w true (MkPath abs ps) = inr D /\ lookup_node (fs w) D = Some Dir)
    as [R0 L0].
  { unfold stat in SD. destruct (resolve w true (MkPath abs ps)); [discriminate|].
    destruct (lookup_node (fs w) l) eqn:L; [|discriminate].
    inversion SD; subst. auto. }
  destruct (resolve_as_walk _ _ _ _ R0) as (start & W0 & RW).
  (* the last step: [os.mkdir] of the whole path, its parent made *)
  assert (forall l b f1,
             Forall (fun c => valid_name c = true) (l ++ [b]) ->
             fs w !! (D ++ take 1 (l ++ [b])) = None ->
             f1 = add_dirs (fs w) D l ->
             forall fuel parents exist_ok,
               Path_mkdir_rec fuel (MkPath abs (ps ++ l ++ [b])) parents exist_ok
                 (set_fs w f1)
               = (inr tt, set_fs w (add_dirs (fs w) D (l ++ [b])))) as Last.
  { intros l b f1 V N -> fuel parents exist_ok.
    assert (fs w ⊆ add_dirs (fs w) D l) as Sub
      by (destruct l; [reflexivity|apply add_dirs_subseteq; exact N]).
    pose proof (subseteq_extends _ _ Sub) as X.
    assert (forall j, 1 <= j <= length l ->
                      D <> D ++ take j l) as HD.
    { intros j Hj E. apply (f_equal (@length _)) in E.
      rewrite length_app, length_take in E. lia. }
    assert (walk MAXSYMLINKS (add_dirs (fs w) D l) true start ps = inr D) as W1.
    { apply (walk_extends (fs w)); [exact X| |exact W0].
      intros Hn t. rewrite add_dirs_other by exact HD. rewrite Hn. discriminate. }
    destruct (walk_app _ _ (l ++ [b]) ltac:(destruct l; discriminate)
                (lookup_node_extends _ _ _ X L0) _ _ _ W1) as [m Hm].
    apply Path_mkdir_rec_ok.
    rewrite (os_mkdir_fresh _ _ _ (D ++ l ++ [b])).
    - cbn [set_fs fs cwd home passwd env_PATH]. rewrite add_dirs_snoc. reflexivity.
    - cbn [parts is_abs]. rewrite (RW _ false _ X), Hm.
      apply walk_chain; [exact V|destruct l; discriminate| |].
      + intros j Hj. rewrite length_app in Hj. cbn [length] in Hj.
        rewrite take_app_le by lia. apply add_dirs_made. lia.
      + rewrite add_dirs_other.
        * pose proof (chain_fresh (l ++ [b]) (length (l ++ [b])) N) as F.
          rewrite firstn_all in F. apply F. rewrite length_app. simpl. lia.
        * intros j Hj E. apply (f_equal (@length _)) in E.
          rewrite !length_app, length_take in E. simpl in E. lia.
    - cbn [set_fs fs]. rewrite app_assoc, lookup_node_snoc, <- app_assoc.
      rewrite add_dirs_other.
      + pose proof (chain_fresh (l ++ [b]) (length (l ++ [b])) N) as F.
        rewrite firstn_all in F. apply F. rewrite length_app. simpl. lia.
      + intros j Hj E. apply (f_equal (@length _)) in E.
        rewrite !length_app, length_take in E. simpl in E. lia. }
  induction names as [|b l IH] using rev_ind; intros Hne V N fuel exist_ok Hf;
    [congruence|].
  destruct l as [|a l'].
  - (* one name: made at once *)
    rewrite <- (set_fs_same w) at 1.
    apply (Last [] b (fs w)); [exact V|exact N|reflexivity].
  - (* the parent is missing: made first *)
    set (l := a :: l') in *.
    assert (Forall (fun c => valid_name c = true) l) as Vl
      by (apply Forall_app in V; tauto).
    destruct (walk_app _ _ (l ++ [b]) ltac:(discriminate) L0 _ _ _ W0) as [m Hm].
    assert (os_mkdir (Path_str (MkPath abs (ps ++ l ++ [b])))
              (MkPath abs (ps ++ l ++ [b])) w
            = (inl (OSError ENOENT (Some (Path_str (MkPath abs (ps ++ l ++ [b]))))), w))
      as E.
    { unfold os_mkdir. rewrite <- (set_fs_same w) at 1.
      rewrite (RW _ false _ (extends_refl _)), Hm.
      subst l. cbn [app]. rewrite walk_cons.
      inversion Vl as [|? ? Va _]; subst.
      rewrite (valid_name_not_dotdot _ Va).
      change (fs w !! (D ++ [a]) = None) in N. rewrite N.
      destruct (l' ++ [b]) eqn:E; [destruct l'; discriminate|reflexivity]. }
    rewrite length_app in Hf. cbn [length] in Hf.
    destruct fuel as [|fuel]; [subst l; simpl in Hf; lia|].
    cbn [Path_mkdir_rec]. unfold catch at 1. rewrite E.
    cbn [is_FileNotFoundError negb orb]. unfold is_top. cbn [parts].
    destruct (ps ++ l ++ [b]) eqn:E2; [destruct ps; discriminate|]. rewrite <- E2.
    unfold bind at 1.
    replace (Path_parent (MkPath abs (ps ++ l ++ [b]))) with (MkPath abs (ps ++ l))
      by (unfold Path_parent; cbn [is_abs parts];
          rewrite app_assoc, removelast_last; reflexivity).
    rewrite (IH ltac:(discriminate) Vl N fuel true ltac:(lia)).
    apply (Last l b _ V N eq_refl).
Qed.
End mkdir_chain.

(** [mkdir] makes the directories that are missing on the way: when the
    path goes through an existing directory [D] and then down names of
    which the first is free, every one of these names becomes a
    directory, each inside the one before, and nothing is printed. *)
Theorem mkdir_makes_missing_parents (w : world) (d : string)
    (ps names D : list string) :
  wf_fs (fs w) ->
  parts (PurePath (expanduser w d)) = ps ++ names ->
  stat w true (MkPath (is_abs (PurePath (expanduser w d))) ps) = inr (D, Dir) ->
  names <> [] -> Forall (fun c => valid_name c = true) names ->
  fs w !! (D ++ take 1 names) = None ->
  cmd_mkdir [d] w = (inr "", set_fs w (add_dirs (fs w) D names)).
Proof.
  intros W Hp SD Hne V N. unfold cmd_mkdir. cbn [for_each]. unfold mkdir_body.
  mrun. unfold Path_mkdir.
  destruct (PurePath (expanduser w d)) as [abs pp]. cbn [parts is_abs] in *. subst pp.
  rewrite (Path_mkdir_rec_chain w abs ps D W SD names Hne V N); [reflexivity|].
  rewrite length_app. lia.
Qed.

Lemma mkdir_makes_missing_parents_witness :
  cmd_mkdir ["d/p/q/r"] demo_world
  = (inr "", set_fs demo_world
               (<[["home"; "u"; "d"; "p"; "q"; "r"] := Dir]>
                  (<[["home"; "u"; "d"; "p"; "q"] := Dir]>
                     (<[["home"; "u"; "d"; "p"] := Dir]> (fs demo_world))))).
Proof.
  apply (mkdir_makes_missing_parents demo_world "d/p/q/r" ["d"] ["p"; "q"; "r"]
           ["home"; "u"; "d"]).
  - apply (bool_decide_unpack (wf_fs (fs demo_world))). vm_compute. exact I.
  - reflexivity.
  - reflexivity.
  - discriminate.
  - repeat constructor.
  - reflexivity.
Defined.

(** ** Quotations that are not closed *)
Module unclosed.
Import shlex shlex_facts.

Lemma quote_chars q : is_quote q = true -> q = "'"%char \/ q = "034"%char.
Proof.
  destruct q as [[] [] [] [] [] [] [] []]; try discriminate; auto.
Qed.

Lemma read_open q body :
  stays_open q body = true ->
  forall es q0 tok,
    read_loop body (st_quote q) es q0 tok = inl (ValueError "No closing quotation").
Proof.
  induction body as [|c r IH]; intros H es q0 tok; [reflexivity|].
  unfold stays_open in H. cbn [string_forallb] in H.
  apply andb_prop in H as [Hc Hr]. apply andb_prop in Hc as [Hq He].
  apply negb_true_iff in Hq, He. cbn [read_loop]. rewrite Hq, He.
  apply IH, Hr.
Qed.

(** Reading a token in the text before the quotation: either a token is
    complete at a blank of that text, or the quotation is entered and
    never left. *)
Lemma read_before q body :
  is_quote q = true -> stays_open q body = true ->
  forall pre st es q0 tok,
    st = st_space \/ st = st_word ->
    no_quoting pre = true ->
    read_loop (pre +:+ String q body) st es q0 tok
      = inl (ValueError "No closing quotation")
    \/ exists pre' tok',
         read_loop (pre +:+ String q body) st es q0 tok
           = inr (pre' +:+ String q body, st_space, q0, tok')
         /\ no_quoting pre' = true
         /\ String.length pre' < String.length pre
         /\ nonempty tok' || q0 = true.
Proof.
  intros Hq Ho. induction pre as [|c pre IH]; intros st es q0 tok Hst Hp.
  - left. change ("" +:+ String q body) with (String q body).
    destruct (quote_chars q Hq) as [-> | ->], Hst as [-> | ->];
      cbn [read_loop is_whitespace is_escape is_quote]; apply read_open, Ho.
  - unfold no_quoting in Hp. cbn [string_forallb] in Hp.
    apply andb_prop in Hp as [Hc Hp]. apply andb_prop in Hc as [Hcq Hce].
    apply negb_true_iff in Hcq, Hce.
    change (String c pre +:+ String q body) with (String c (pre +:+ String q body)).
    assert (forall st' tok1,
               st' = st_space \/ st' = st_word ->
               read_loop (pre +:+ String q body) st' es q0 tok1
                 = inl (ValueError "No closing quotation")
               \/ exists pre' tok',
                    read_loop (pre +:+ String q body) st' es q0 tok1
                      = inr (pre' +:+ String q body, st_space, q0, tok')
                    /\ no_quoting pre' = true
                    /\ String.length pre' < String.length (String c pre)
                    /\ nonempty tok' || q0 = true) as Next.
    { intros st' tok1 Hst'.
      destruct (IH st' es q0 tok1 Hst' Hp) as [E|(pre' & tok' & E & U & L & T)];
        [left; exact E|right].
      exists pre', tok'. repeat split; try assumption. simpl. lia. }
    destruct Hst as [-> | ->]; cbn [read_loop]; rewrite Hcq, Hce;
      destruct (is_whitespace c);
      try (apply Next; auto);
      (destruct (nonempty tok || q0) eqn:T; [|apply Next; auto]);
      right; exists pre, tok; repeat split; try assumption; simpl; lia.
Qed.

Lemma tokens_unclosed q body :
  is_quote q = true -> stays_open q body = true ->
  forall n pre,
    String.length pre < n -> no_quoting pre = true ->
    tokens n (Lexer st_space (pre +:+ String q body))
    = Some (inl (ValueError "No closing quotation")).
Proof.
  intros Hq Ho. induction n as [|n IH]; intros pre Hn Hp; [lia|].
  cbn [tokens]. unfold read_token. cbn [instream state].
  destruct (read_before q body Hq Ho pre st_space st_space false ""
              (or_introl eq_refl) Hp) as [E|(pre' & tok' & E & U & L & T)];
    rewrite E; [reflexivity|].
  rewrite orb_false_r in T. rewrite T. cbn [negb andb].
  rewrite (IH pre' ltac:(lia) U). reflexivity.
Qed.

Lemma not_blank q body pre :
  is_quote q = true -> is_blank (pre +:+ String q body) = false.
Proof.
  intros Hq. unfold is_blank. induction pre as [|c pre IH].
  - change ("" +:+ String q body) with (String q body). cbn [string_forallb].
    destruct (quote_chars q Hq) as [-> | ->]; reflexivity.
  - change (String c pre +:+ String q body) with (String c (pre +:+ String q body)).
    cbn [string_forallb]. rewrite IH. apply andb_false_r.
Qed.
End unclosed.

(** A quotation that is opened and not closed ends the session, whatever
    words stand before it: the line is recorded in the history, the
    tokenizer raises [ValueError], nothing in the loop catches it, nothing
    is printed, and the lines that follow are never read. *)
Theorem unclosed_quote_ends_loop (host : Host) (w : world)
    (pre body : string) (q : ascii) (rest : list input_event) :
  lookup_node (fs w) (cwd w) = Some Dir ->
  shlex.is_quote q = true ->
  no_quoting pre = true ->
  stays_open q body = true ->
  shlex.split (pre +:+ String q body) = inl (ValueError "No closing quotation")
  /\ run_loop host (Line (pre +:+ String q body) :: rest) w
     = (Crashed (ValueError "No closing quotation"), [], rest,
        (append_history_line (pre +:+ String q body) w).2).
Proof.
  intros Hc Hq Hp Ho.
  assert (shlex.split (pre +:+ String q body)
          = inl (ValueError "No closing quotation")) as E.
  { eapply shlex_facts.split_from_tokens.
    apply (unclosed.tokens_unclosed q body Hq Ho (S (String.length pre)) pre);
      [lia|exact Hp]. }
  split; [exact E|]. cbn [run_loop].
  rewrite (loop_round_tokenize_error host w _ _ Hc (unclosed.not_blank q body pre Hq) E).
  reflexivity.
Qed.

Lemma unclosed_quote_ends_loop_witness :
  shlex.split "cat a.txt 'my file" = inl (ValueError "No closing quotation")
  /\ run_loop demo_host [Line "cat a.txt 'my file"; Line "pwd"] demo_world
     = (Crashed (ValueError "No closing quotation"), [], [Line "pwd"],
        (append_history_line "cat a.txt 'my file" demo_world).2).
Proof.
  apply (unclosed_quote_ends_loop demo_host demo_world "cat a.txt " "my file" "'"%char
           [Line "pwd"]); reflexivity.
Defined.

(** ** Blank lines *)




(** ** [ls] of what is not a directory *)



(** ** [rm] of a directory *)

(** [rm] of a directory: one that is empty and has a proper name is
    removed without a word; one that holds something is kept, and so is
    one named by [.], by the root or by a path that ends in [..] even
    when it is empty, all with the diagnostic [Directory not empty]. *)
Theorem rm_directory (w : world) (target : string) (q : list string) :
  stat w false (PurePath (expanduser w target)) = inr (q, Dir) ->
  (valid_name (Path_name (PurePath (expanduser w target))) = true ->
   children (fs w) q = [] ->
   cmd_rm [target] w = (inr "", set_fs w (delete q (fs w))))
  /\ (Path_name (PurePath (expanduser w target)) = ""
      \/ Path_name (PurePath (expanduser w target)) = ".."
      \/ children (fs w) q <> [] ->
      cmd_rm [target] w = (inr (rm_refused target), w)).
Proof.
  intros S. split.
  - intros V C. unfold cmd_rm. cbn [for_each]. unfold bind, ret.
    rewrite (rm_body_directory _ _ _ _ S), (os_rmdir_empty _ _ _ _ V S C).
    reflexivity.
  - intros H. unfold cmd_rm. cbn [for_each]. unfold bind, ret.
    rewrite (rm_body_directory _ _ _ _ S).
    assert (exists e, os_rmdir (Path_str (PurePath (expanduser w target)))
                        (PurePath (expanduser w target)) w = (inl e, w)) as [e E].
    { unfold os_rmdir. fold (Path_name (PurePath (expanduser w target))). mrun.
      destruct (negb (nonempty (Path_name (PurePath (expanduser w target))))) eqn:N;
        [eauto|].
      destruct (String.eqb (Path_name (PurePath (expanduser w target))) "..") eqn:D;
        [eauto|].
      rewrite S. mstep.
      destruct H as [H|[H|H]].
      - rewrite H in N. discriminate N.
      - rewrite H in D. discriminate D.
      - destruct (children (fs w) q); [congruence|eauto]. }
    rewrite E. reflexivity.
Qed.

Lemma rm_directory_witness :
  cmd_rm ["d/.."] demo_world
  = (inr "rm: cannot remove 'd/..': Directory not empty", demo_world).
Proof.
  apply (rm_directory demo_world "d/.." ["home"; "u"]); [reflexivity|].
  right. left. reflexivity.
Defined.

(** ** Commands of the search path *)

Section offered.
Context (w : world) (text : string) (bs : list string).

Lemma scan_entry_mono acc f x : x ∈ acc.1 -> x ∈ (scan_entry text acc f).1.
Proof.
  destruct acc as [cands seen]. unfold scan_entry. cbn [fst].
  destruct (startswith f text && negb (bool_decide (f ∈ seen))); cbn [fst];
    [intros H; apply elem_of_app; auto|auto].
Qed.

Lemma scan_entries_mono names x : forall acc,
  x ∈ acc.1 -> x ∈ (foldl (scan_entry text) acc names).1.
Proof.
  induction names as [|f names IH]; intros acc H; [exact H|].
  cbn [foldl]. apply IH, scan_entry_mono, H.
Qed.

Lemma scan_dir_mono acc d x : x ∈ acc.1 -> x ∈ (scan_dir w text acc d).1.
Proof.
  intros H. unfold scan_dir. destruct (nonempty d); [|exact H].
  destruct (os_listdir d w) as [[e|names] w']; [exact H|].
  apply scan_entries_mono, H.
Qed.

Lemma scan_dirs_mono dirs x : forall acc,
  x ∈ acc.1 -> x ∈ (foldl (scan_dir w text) acc dirs).1.
Proof.
  induction dirs as [|d dirs IH]; intros acc H; [exact H|].
  cbn [foldl]. apply IH, scan_dir_mono, H.
Qed.

Lemma scan_entry_adds acc f :
  scan_inv bs acc -> startswith f text = true -> f ∈ (scan_entry text acc f).1.
Proof.
  destruct acc as [cands seen]. intros (ext & E & N & S) Hf.
  cbn [fst snd] in *. unfold scan_entry. rewrite Hf. cbn [andb].
  destruct (bool_decide (f ∈ seen)) eqn:B; cbn [negb fst].
  - apply bool_decide_eq_true in B. rewrite S in B.
    apply elem_of_list_to_set in B. exact B.
  - apply elem_of_app. right. apply list_elem_of_singleton. reflexivity.
Qed.

Lemma scan_entries_adds names f : forall acc,
  scan_inv bs acc -> f ∈ names -> startswith f text = true ->
  f ∈ (foldl (scan_entry text) acc names).1.
Proof.
  induction names as [|g names IH]; intros acc I Hin Hf.
  - apply elem_of_nil in Hin. contradiction.
  - cbn [foldl]. apply elem_of_cons in Hin as [->|Hin].
    + apply scan_entries_mono, scan_entry_adds; assumption.
    + apply IH; [apply scan_entry_inv, I|exact Hin|exact Hf].
Qed.

Lemma scan_dirs_adds dirs d names f : forall acc,
  scan_inv bs acc -> d ∈ dirs -> nonempty d = true ->
  (os_listdir d w).1 = inr names -> f ∈ names -> startswith f text = true ->
  f ∈ (foldl (scan_dir w text) acc dirs).1.
Proof.
  induction dirs as [|d0 dirs IH]; intros acc I Hd Hne Hl Hin Hf.
  - apply elem_of_nil in Hd. contradiction.
  - cbn [foldl]. apply elem_of_cons in Hd as [<-|Hd].
    + apply scan_dirs_mono. unfold scan_dir. rewrite Hne.
      destruct (os_listdir d w) as [r w']. cbn [fst] in Hl. subst r.
      apply scan_entries_adds; assumption.
    + apply (IH (scan_dir w text acc d0)); try assumption.
      apply scan_dir_inv, I.
Qed.
End offered.

(** At command position the completer offers every name it finds in a
    directory of the search path that starts with the text typed: some
    state gives it. *)
Theorem completer_offers_path_commands (host : Host) (w : world)
    (text d f : string) (names : list string) :
  d ∈ split_colon (env_PATH w) -> nonempty d = true ->
  (os_listdir d w).1 = inr names -> f ∈ names ->
  startswith f text = true ->
  exists state, completer host w 0 text state = Some f.
Proof.
  intros Hd Hne Hl Hin Hf. unfold completer. cbn [Nat.eqb].
  apply list_elem_of_lookup. unfold command_candidates.
  apply (scan_dirs_adds w text (List.filter (fun c => startswith c text) BUILTINS)
           _ d names f); try assumption.
  exists []. cbn [fst snd]. rewrite app_nil_r.
  split; [reflexivity|]. split; [apply filter_NoDup, BUILTINS_NoDup|reflexivity].
Qed.

Lemma completer_offers_path_commands_witness :
  exists state, completer demo_host demo_world 0 "ls" state = Some "lsattr".
Proof.
  apply (completer_offers_path_commands demo_host demo_world "ls" "/bin" "lsattr"
           ["ls"; "lsattr"]).
  - apply list_elem_of_In. cbn. auto.
  - reflexivity.
  - vm_compute. reflexivity.
  - apply list_elem_of_In. cbn. auto.
  - reflexivity.
Defined.

(** ** [touch] with missing parents *)

Section touch_chain.
Context (w : world) (abs : bool) (ps D : list string).
Hypothesis W : wf_fs (fs w).
Hypothesis SD : stat w true (MkPath abs ps) = inr (D, Dir).

(** Once the chain [l] is made below [D], a name right below it resolves
    to its place there, which is free. *)
Lemma resolve_chain l b follow :
  Forall (fun c => valid_name c = true) (l ++ [b]) ->
  fs w !! (D ++ take 1 (l ++ [b])) = None ->
  resolve (set_fs w (add_dirs (fs w) D l)) follow (MkPath abs (ps ++ l ++ [b]))
    = inr (D ++ l ++ [b])
  /\ lookup_node (add_dirs (fs w) D l) (D ++ l ++ [b]) = None.
Proof.
  intros V N.
  assert (resolve w true (MkPath abs ps) = inr D /\ lookup_node (fs w) D = Some Dir)
    as [R0 L0].
  { unfold stat in SD. destruct (resolve w true (MkPath abs ps)); [discriminate|].
    destruct (lookup_node (fs w) l0) eqn:L; [|discriminate].
    inversion SD; subst. auto. }
  destruct (resolve_as_walk _ _ _ _ R0) as (start & W0 & RW).
  assert (fs w ⊆ add_dirs (fs w) D l) as Sub
    by (destruct l; [reflexivity|apply (add_dirs_subseteq w D W); exact N]).
  pose proof (subseteq_extends _ _ Sub) as X.
  assert (forall j, 1 <= j <= length l -> D <> D ++ take j l) as HD.
  { intros j Hj E. apply (f_equal (@length _)) in E.
    rewrite length_app, length_take in E. lia. }
  assert (walk MAXSYMLINKS (add_dirs (fs w) D l) true start ps = inr D) as W1.
  { apply (walk_extends (fs w)); [exact X| |exact W0].
    intros Hn t. rewrite add_dirs_other by exact HD. rewrite Hn. discriminate. }
  destruct (walk_app _ _ (l ++ [b]) ltac:(destruct l; discriminate)
              (lookup_node_extends _ _ _ X L0) _ _ _ W1) as [m Hm].
  assert (add_dirs (fs w) D l !! (D ++ l ++ [b]) = None) as Free.
  { rewrite add_dirs_other.
    - pose proof (chain_fresh w D W (l ++ [b]) (length (l ++ [b])) N) as F.
      rewrite firstn_all in F. apply F. rewrite length_app. simpl. lia.
    - intros j Hj E. apply (f_equal (@length _)) in E.
      rewrite !length_app, length_take in E. simpl in E. lia. }
  split.
  - rewrite (RW _ follow _ X), Hm.
    apply walk_chain; [exact V|destruct l; discriminate| |exact Free].
    intros j Hj. rewrite length_app in Hj. cbn [length] in Hj.
    rewrite take_app_le by lia. apply add_dirs_made. lia.
  - rewrite app_assoc, lookup_node_snoc, <- app_assoc. exact Free.
Qed.
End touch_chain.

(** [touch] makes the directories that are missing on the way to its
    file: when the path leads through an existing directory and then down
    names of which the first is free, all but the last become directories,
    one inside the other, the last an empty file in the innermost;
    nothing is printed. *)
Theorem touch_makes_missing_parents (w : world) (t b : string)
    (ps names D : list string) :
  wf_fs (fs w) ->
  parts (PurePath (expanduser w t)) = ps ++ names ++ [b] ->
  stat w true (MkPath (is_abs (PurePath (expanduser w t))) ps) = inr (D, Dir) ->
  names <> [] -> Forall (fun c => valid_name c = true) (names ++ [b]) ->
  fs w !! (D ++ take 1 names) = None ->
  cmd_touch [t] w
  = (inr "", set_fs w (<[D ++ names ++ [b] := File ""]> (add_dirs (fs w) D names))).
Proof.
  intros W Hp SD Hne V N. unfold cmd_touch. cbn [for_each]. unfold touch_body.
  mrun. destruct (PurePath (expanduser w t)) as [abs pp].
  cbn [parts is_abs] in *. subst pp.
  replace (Path_parent (MkPath abs (ps ++ names ++ [b]))) with (MkPath abs (ps ++ names))
    by (unfold Path_parent; cbn [is_abs parts];
        rewrite app_assoc, removelast_last; reflexivity).
  unfold Path_mkdir. cbn [parts].
  assert (Forall (fun c => valid_name c = true) names) as Vn
    by (apply Forall_app in V; tauto).
  rewrite (Path_mkdir_rec_chain w abs ps D W SD names Hne Vn N)
    by (rewrite length_app; lia).
  assert (fs w !! (D ++ take 1 (names ++ [b])) = None) as N'
    by (destruct names; [congruence|exact N]).
  destruct (resolve_chain w abs ps D W SD names b true V N') as [R L].
  mstep. unfold exists_, stat, write_file. rewrite R. cbn [fs set_fs].
  rewrite L. mstep. rewrite R. cbn [fs set_fs]. rewrite L. reflexivity.
Qed.

Lemma touch_makes_missing_parents_witness :
  cmd_touch ["d/p/q/new.txt"] demo_world
  = (inr "", set_fs demo_world
               (<[["home"; "u"; "d"; "p"; "q"; "new.txt"] := File ""]>
                  (<[["home"; "u"; "d"; "p"; "q"] := Dir]>
                     (<[["home"; "u"; "d"; "p"] := Dir]> (fs demo_world))))).
Proof.
  apply (touch_makes_missing_parents demo_world "d/p/q/new.txt" "new.txt" ["d"]
           ["p"; "q"] ["home"; "u"; "d"]).
  - apply (bool_decide_unpack (wf_fs (fs demo_world))). vm_compute. exact I.
  - reflexivity.
  - reflexivity.
  - discriminate.
  - repeat constructor.
  - reflexivity.
Defined.

